(** * entt::delegate (src/entt/signal/delegate.hpp)

    A shallow embedding of the delegate class template: one pointer-sized
    inline buffer ([storage]) and one function pointer ([fn]) to a
    trampoline generated by the [connect] overloads.

    - the buffer is a list of bytes; placement new writes the object
      representation of the payload over its first bytes;
    - a function pointer is an address together with the code found there;
      [operator==] compares addresses only;
    - the bound callables are state transformers over a world that the
      delegate itself is not part of; a trampoline receives the buffer by
      reference and hands back its new contents;
    - a [static_assert] that fails makes [connect] return [None];
    - callables that reset or connect the delegate they are called through
      are the subject of a second model, in which the delegate is an
      object of the memory that the callables work on. *)

From Stdlib Require Import ZArith List String Bool Lia.
From coqutil Require Import Byte Word.LittleEndianList.
Import ListNotations.

Local Open Scope Z_scope.

(** ** Types of the program and their object representation *)

(** What the class needs to know of a C++ type: its identity, its values,
    the traits the static assertions look at, and how a value is laid out
    in [sizeof] bytes. *)
Record cxx_type : Type := {
  ty_name : string;
  ty_val : Type;
  ty_sizeof : nat;
  ty_is_class : bool;
  ty_is_trivially_copyable : bool;
  ty_is_trivially_destructible : bool;
  ty_to_bytes : ty_val -> list byte;
  ty_from_bytes : list byte -> ty_val;
  ty_to_bytes_length : forall v, List.length (ty_to_bytes v) = ty_sizeof
}.

(** A value that is read back unchanged from the bytes it was written to. *)
Definition repr_ok (T : cxx_type) (v : ty_val T) : Prop :=
  ty_from_bytes T (ty_to_bytes T v) = v.

(** [storage_type]: aligned storage of the size and alignment of a
    pointer to void. *)
Definition storage_type : Type := list byte.

(** [new (&storage) Type{value}]: the bytes of the new object replace the
    first [sizeof(Type)] bytes of the buffer, the others are left alone. *)
Definition placement_new (bs : list byte) (st : storage_type) : storage_type :=
  bs ++ skipn (List.length bs) st.

(** [*reinterpret_cast<Type *>(&storage)] *)
Definition reinterpret (T : cxx_type) (st : storage_type) : ty_val T :=
  ty_from_bytes T (firstn (ty_sizeof T) st).

(** The address of a trampoline: every instantiation of a [connect]
    template has a lambda of its own, so an address is the overload
    together with its template arguments. *)
Inductive fn_addr : Type :=
| lambda_function (Function : string)
| lambda_candidate (Candidate : string) (Type_ : string)
| lambda_invokable (Invokable : string).

Definition fn_addr_eqb (a b : fn_addr) : bool :=
  match a, b with
  | lambda_function f, lambda_function g => String.eqb f g
  | lambda_candidate c t, lambda_candidate c' t' => String.eqb c c' && String.eqb t t'
  | lambda_invokable i, lambda_invokable j => String.eqb i j
  | _, _ => false
  end.

Section Delegate.

(** The function type [Ret(Args...)] of the delegate, the state of the
    rest of the program, and the size of a pointer to void. *)
Variables Ret Args World : Type.
Variable ptr_size : nat.

(** Pointers are addresses, little endian in [ptr_size] bytes. *)
Definition pointer_to (pointee : string) : cxx_type :=
  {| ty_name := pointee ++ "*";
     ty_val := Z;
     ty_sizeof := ptr_size;
     ty_is_class := false;
     ty_is_trivially_copyable := true;
     ty_is_trivially_destructible := true;
     ty_to_bytes := le_split ptr_size;
     ty_from_bytes := le_combine;
     ty_to_bytes_length := length_le_split ptr_size |}.

Definition void_ptr : cxx_type := pointer_to "void".

Definition nullptr : Z := 0.

(** [using proto_fn_type = Ret(storage_type &, Args...)] *)
Definition proto_fn_type : Type :=
  storage_type -> Args -> World -> Ret * storage_type * World.

(** [proto_fn_type *], when not null *)
Record proto_fn_ptr : Type := {
  fp_addr : fn_addr;
  fp_code : proto_fn_type
}.

Record delegate : Type := {
  storage : storage_type;
  fn : option proto_fn_ptr
}.

(** *** Template arguments *)

(** [template<auto Function>]: a free function; [function_call] is
    [std::invoke(Function, args...)] converted to [Ret], when that is
    well formed. *)
Record function_t : Type := {
  function_name : string;
  function_call : option (Args -> World -> Ret * World)
}.

(** [template<auto Candidate, typename Type>]: [candidate_call] is
    [std::invoke(Candidate, value_or_instance, args...)] for an lvalue
    [value_or_instance] of type [Type], when that is well formed. *)
Record candidate_t (T : cxx_type) : Type := {
  candidate_name : string;
  candidate_call : option (ty_val T -> Args -> World -> Ret * ty_val T * World)
}.

(** [template<typename Invokable>]: a class type with, when
    [invokable_call] is there, a call operator for [Args...].
    [invokable_move] is the constructor that the class declares for
    [Invokable{std::move(invokable)}]: its move constructor, or its copy
    constructor when it has no move constructor. *)
Record invokable_t : Type := {
  invokable_type : cxx_type;
  invokable_call :
    option (ty_val invokable_type -> Args -> World -> Ret * ty_val invokable_type * World);
  invokable_move : ty_val invokable_type -> ty_val invokable_type
}.

(** [Invokable{std::move(invokable)}]: a trivially copyable class is
    copied byte by byte; any other class runs its constructor. *)
Definition move_construct (Invokable : invokable_t)
    (invokable : ty_val (invokable_type Invokable)) : ty_val (invokable_type Invokable) :=
  if ty_is_trivially_copyable (invokable_type Invokable) then invokable
  else invokable_move Invokable invokable.

(** A pointer to a member function of [Class] with the signature of the
    delegate; the function takes [this]. *)
Record member_t : Type := {
  member_class : string;
  member_name : string;
  member_call : option (Z -> Args -> World -> Ret * World)
}.

(** [std::invoke] of a pointer to member on a pointer to an instance:
    the member is called on the pointee, the pointer is not changed. *)
Definition invoke_member (f : Z -> Args -> World -> Ret * World)
    : Z -> Args -> World -> Ret * Z * World :=
  fun this args w => let (r, w') := f this args w in (r, this, w').

Definition member_candidate (m : member_t) : candidate_t (pointer_to (member_class m)) :=
  Build_candidate_t (pointer_to (member_class m))
    (member_name m) (option_map invoke_member (member_call m)).

Definition is_invocable_r {A : Type} (call : option A) : bool :=
  match call with Some _ => true | None => false end.

(** *** The class *)

(** [delegate()] *)
Definition delegate_default : delegate :=
  {| storage := placement_new (ty_to_bytes void_ptr nullptr) (repeat Byte.x00 ptr_size);
     fn := None |}.

(** [template<auto Function> void connect()] *)
Definition connect_function (Function : function_t) (d : delegate) : option delegate :=
  match function_call Function with
  | None => None
  | Some f =>
      Some {| storage := placement_new (ty_to_bytes void_ptr nullptr) (storage d);
              fn := Some {| fp_addr := lambda_function (function_name Function);
                            fp_code := fun st args w =>
                                         let (r, w') := f args w in (r, st, w') |} |}
  end.

(** [template<auto Candidate, typename Type> void connect(Type)] *)
Definition connect_candidate_asserts (T : cxx_type) (Candidate : candidate_t T) : bool :=
  (ty_sizeof T <=? ptr_size)%nat
  && ty_is_trivially_copyable T
  && ty_is_trivially_destructible T
  && is_invocable_r (candidate_call T Candidate).

(** The lambda of [connect<Candidate, Type>]: the buffer is read as a
    [Type] and [Candidate] is invoked on that lvalue and the arguments.
    The lambda of [connect(Invokable)] is the same one, with the function
    object for the value and its call operator for [Candidate]. *)
Definition candidate_thunk (T : cxx_type)
    (call : ty_val T -> Args -> World -> Ret * ty_val T * World) : proto_fn_type :=
  fun st args w =>
    let value_or_instance := reinterpret T st in
    let '(r, v', w') := call value_or_instance args w in
    (r, placement_new (ty_to_bytes T v') st, w').

Definition connect_candidate (T : cxx_type) (Candidate : candidate_t T)
    (value_or_instance : ty_val T) (d : delegate) : option delegate :=
  match candidate_call T Candidate with
  | None => None
  | Some call =>
      if connect_candidate_asserts T Candidate then
        Some {| storage := placement_new (ty_to_bytes T value_or_instance) (storage d);
                fn := Some {| fp_addr := lambda_candidate (candidate_name T Candidate) (ty_name T);
                              fp_code := candidate_thunk T call |} |}
      else None
  end.

(** [template<typename Invokable> void connect(Invokable)]; [invokable]
    is the parameter, taken by value, and the object in the buffer is
    constructed from it. *)
Definition connect_invokable_asserts (Invokable : invokable_t) : bool :=
  (ty_sizeof (invokable_type Invokable) <? ptr_size)%nat
  && ty_is_class (invokable_type Invokable)
  && ty_is_trivially_destructible (invokable_type Invokable)
  && is_invocable_r (invokable_call Invokable).

Definition connect_invokable (Invokable : invokable_t)
    (invokable : ty_val (invokable_type Invokable)) (d : delegate) : option delegate :=
  match invokable_call Invokable with
  | None => None
  | Some call =>
      if connect_invokable_asserts Invokable then
        Some {| storage := placement_new (ty_to_bytes (invokable_type Invokable)
                                            (move_construct Invokable invokable))
                                         (storage d);
                fn := Some {| fp_addr := lambda_invokable (ty_name (invokable_type Invokable));
                              fp_code := candidate_thunk (invokable_type Invokable) call |} |}
      else None
  end.

(** [void reset()] *)
Definition reset (d : delegate) : delegate :=
  {| storage := placement_new (ty_to_bytes void_ptr nullptr) (storage d);
     fn := None |}.

(** [const void * instance() const] *)
Definition instance (d : delegate) : Z :=
  reinterpret void_ptr (storage d).

(** [Ret operator()(Args... args) const]; [None] is the failed
    [assert(fn)].  The buffer is [mutable]: the call may change it. *)
Definition invoke (d : delegate) (args : Args) (w : World)
    : option (Ret * delegate * World) :=
  match fn d with
  | None => None
  | Some f =>
      let '(r, st', w') := fp_code f (storage d) args w in
      Some (r, {| storage := st'; fn := fn d |}, w')
  end.

(** [explicit operator bool() const] *)
Definition operator_bool (d : delegate) : bool :=
  match fn d with Some _ => true | None => false end.

(** [bool operator==(const delegate &other) const]: [fn == other.fn] *)
Definition operator_eq (d other : delegate) : bool :=
  match fn d, fn other with
  | None, None => true
  | Some f, Some g => fn_addr_eqb (fp_addr f) (fp_addr g)
  | _, _ => false
  end.

(** [bool operator!=(const delegate &lhs, const delegate &rhs)] *)
Definition operator_neq (lhs rhs : delegate) : bool :=
  negb (operator_eq lhs rhs).

(** A default constructed delegate and then [connect].  The constructors
    for a free function and for a value or instance are just that. *)
Definition delegate_of_function (Function : function_t) : option delegate :=
  connect_function Function delegate_default.

Definition delegate_of_candidate (T : cxx_type) (Candidate : candidate_t T)
    (value_or_instance : ty_val T) : option delegate :=
  connect_candidate T Candidate value_or_instance delegate_default.

(** [delegate d; d.connect(invokable);] *)
Definition delegate_of_invokable (Invokable : invokable_t)
    (invokable : ty_val (invokable_type Invokable)) : option delegate :=
  connect_invokable Invokable invokable delegate_default.

(** [delegate(Invokable invokable)]: [delegate{}], then
    [connect(std::move(invokable))], whose parameter is constructed from
    the one of the constructor. *)
Definition delegate_from_invokable (Invokable : invokable_t)
    (invokable : ty_val (invokable_type Invokable)) : option delegate :=
  connect_invokable Invokable (move_construct Invokable invokable) delegate_default.

End Delegate.

Arguments fp_addr {Ret Args World} _.
Arguments fp_code {Ret Args World} _.
Arguments storage {Ret Args World} _.
Arguments fn {Ret Args World} _.
Arguments function_name {Ret Args World} _.
Arguments function_call {Ret Args World} _.
Arguments candidate_name {Ret Args World T} _.
Arguments candidate_call {Ret Args World T} _.
Arguments invokable_type {Ret Args World} _.
Arguments invokable_call {Ret Args World} _.
Arguments invokable_move {Ret Args World} _ _.
Arguments move_construct {Ret Args World} Invokable invokable.
Arguments member_class {Ret Args World} _.
Arguments member_name {Ret Args World} _.
Arguments member_call {Ret Args World} _.
Arguments invoke_member {Ret Args World} f.
Arguments member_candidate {Ret Args World} ptr_size m.
Arguments candidate_thunk {Ret Args World} T call.
Arguments delegate_default {Ret Args World} ptr_size.
Arguments connect_function {Ret Args World} ptr_size Function d.
Arguments connect_candidate_asserts {Ret Args World} ptr_size {T} Candidate.
Arguments connect_candidate {Ret Args World} ptr_size {T} Candidate value_or_instance d.
Arguments connect_invokable_asserts {Ret Args World} ptr_size Invokable.
Arguments connect_invokable {Ret Args World} ptr_size Invokable invokable d.
Arguments reset {Ret Args World} ptr_size d.
Arguments instance {Ret Args World} ptr_size d.
Arguments invoke {Ret Args World} d args w.
Arguments operator_bool {Ret Args World} d.
Arguments operator_eq {Ret Args World} d other.
Arguments operator_neq {Ret Args World} lhs rhs.
Arguments delegate_of_function {Ret Args World} ptr_size Function.
Arguments delegate_of_candidate {Ret Args World} ptr_size {T} Candidate value_or_instance.
Arguments delegate_of_invokable {Ret Args World} ptr_size Invokable invokable.
Arguments delegate_from_invokable {Ret Args World} ptr_size Invokable invokable.

(** A run of calls on one delegate, each on the state the one before
    left. *)
Fixpoint invoke_all {Ret Args World : Type} (d : delegate Ret Args World)
    (l : list Args) (w : World) : option (list Ret * delegate Ret Args World * World) :=
  match l with
  | [] => Some ([], d, w)
  | args :: l' =>
      match invoke d args w with
      | None => None
      | Some (r, d', w') =>
          match invoke_all d' l' w' with
          | None => None
          | Some (rs, d'', w'') => Some (r :: rs, d'', w'')
          end
      end
  end.

(** What a caller sees of a run: the values returned and the world. *)
Definition observed {Ret Args World : Type}
    (o : option (list Ret * delegate Ret Args World * World)) : option (list Ret * World) :=
  match o with
  | None => None
  | Some (rs, _, w) => Some (rs, w)
  end.

(** The states a delegate can be in: constructed, then connected, reset
    and called any number of times. *)
Inductive reachable {Ret Args World : Type} (ptr_size : nat)
    : delegate Ret Args World -> Prop :=
| reach_default : reachable ptr_size (delegate_default ptr_size)
| reach_connect_function Function d d' :
    reachable ptr_size d ->
    connect_function ptr_size Function d = Some d' ->
    reachable ptr_size d'
| reach_connect_candidate T (Candidate : candidate_t Ret Args World T) v d d' :
    reachable ptr_size d ->
    connect_candidate ptr_size Candidate v d = Some d' ->
    reachable ptr_size d'
| reach_connect_invokable Invokable v d d' :
    reachable ptr_size d ->
    connect_invokable ptr_size Invokable v d = Some d' ->
    reachable ptr_size d'
| reach_reset d :
    reachable ptr_size d ->
    reachable ptr_size (reset ptr_size d)
| reach_invoke d args w r d' w' :
    reachable ptr_size d ->
    invoke d args w = Some (r, d', w') ->
    reachable ptr_size d'.

(** ** A small program that uses delegates of type [int(int)]

    Pointers have eight bytes; the world is the memory of the [counter]
    objects, by address. *)
Module Program.

Definition memory : Type := list (Z * Z).

Fixpoint load (m : memory) (p : Z) : Z :=
  match m with
  | [] => 0
  | (q, v) :: m' => if Z.eqb p q then v else load m' p
  end.

Fixpoint store (m : memory) (p v : Z) : memory :=
  match m with
  | [] => [(p, v)]
  | (q, u) :: m' => if Z.eqb p q then (q, v) :: m' else (q, u) :: store m' p v
  end.

(** [int]: four bytes, two's complement. *)
Definition int_of_bytes (bs : list byte) : Z :=
  let u := le_combine bs in
  if u <? 2 ^ 31 then u else u - 2 ^ 32.

Definition int : cxx_type :=
  {| ty_name := "int";
     ty_val := Z;
     ty_sizeof := 4;
     ty_is_class := false;
     ty_is_trivially_copyable := true;
     ty_is_trivially_destructible := true;
     ty_to_bytes := le_split 4;
     ty_from_bytes := int_of_bytes;
     ty_to_bytes_length := length_le_split 4 |}.

(** [int twice(int x) { return 2 * x; }] *)
Definition twice : function_t Z Z memory :=
  {| function_name := "twice";
     function_call := Some (fun x m => (2 * x, m)) |}.

(** [int add(int v, int x) { return v + x; }], curried on [v]. *)
Definition add : candidate_t Z Z memory int :=
  Build_candidate_t Z Z memory int "add" (Some (fun v x m => (v + x, v, m))).

(** [int sub(int v, int x) { return v - x; }], curried on [v]. *)
Definition sub : candidate_t Z Z memory int :=
  Build_candidate_t Z Z memory int "sub" (Some (fun v x m => (v - x, v, m))).

(** [struct counter { int value; int increment(int n) { value += n;
    return value; } };] *)
Definition counter_increment : member_t Z Z memory :=
  {| member_class := "counter";
     member_name := "counter::increment";
     member_call := Some (fun this n m =>
                            let value := load m this + n in
                            (value, store m this value)) |}.

(** [struct scale { unsigned char k; int operator()(int x) const
    { return k * x; } };] *)
Definition scale : invokable_t Z Z memory :=
  {| invokable_type :=
       {| ty_name := "scale";
          ty_val := Z;
          ty_sizeof := 1;
          ty_is_class := true;
          ty_is_trivially_copyable := true;
          ty_is_trivially_destructible := true;
          ty_to_bytes := le_split 1;
          ty_from_bytes := le_combine;
          ty_to_bytes_length := length_le_split 1 |};
     invokable_call := Some (fun k x m => (k * x, k, m));
     invokable_move := fun k => k |}.

(** As [scale], with a copy constructor of its own,
    [traced_scale(const traced_scale &o) : k(o.k) {}]: a class that is
    trivially destructible and not trivially copyable. *)
Definition traced_scale : invokable_t Z Z memory :=
  {| invokable_type :=
       {| ty_name := "traced_scale";
          ty_val := Z;
          ty_sizeof := 1;
          ty_is_class := true;
          ty_is_trivially_copyable := false;
          ty_is_trivially_destructible := true;
          ty_to_bytes := le_split 1;
          ty_from_bytes := le_combine;
          ty_to_bytes_length := length_le_split 1 |};
     invokable_call := Some (fun k x m => (k * x, k, m));
     invokable_move := fun k => k |}.

(** The same type, handed over as the value of a curried function
    [int apply(traced_scale s, int x) { return s(x); }]. *)
Definition apply_traced_scale : candidate_t Z Z memory (invokable_type traced_scale) :=
  Build_candidate_t Z Z memory (invokable_type traced_scale) "apply"
    (Some (fun k x m => (k * x, k, m))).

(** As [scale], with a copy constructor that changes the copy,
    [bump(const bump &o) : k(o.k + 1) {}]. *)
Definition bump : invokable_t Z Z memory :=
  {| invokable_type :=
       {| ty_name := "bump";
          ty_val := Z;
          ty_sizeof := 1;
          ty_is_class := true;
          ty_is_trivially_copyable := false;
          ty_is_trivially_destructible := true;
          ty_to_bytes := le_split 1;
          ty_from_bytes := le_combine;
          ty_to_bytes_length := length_le_split 1 |};
     invokable_call := Some (fun k x m => (k * x, k, m));
     invokable_move := fun k => (k + 1) mod 2 ^ 8 |}.

(** Two instances of [counter] on the stack. *)
Definition counter_address : Z := 0x7ffc12345678.

Definition other_counter_address : Z := 0x7ffc12345690.

Definition initial_memory : memory := [(counter_address, 10)].

(** [delegate<int(int)> d{connect_arg<&counter::increment>, &c};] *)
Definition bound_to_counter : delegate Z Z memory :=
  match delegate_of_candidate 8 (member_candidate 8 counter_increment) counter_address with
  | Some d => d
  | None => delegate_default 8
  end.

(** [delegate<int(int)> d{connect_arg<&add>, 5};] *)
Definition bound_to_add_5 : delegate Z Z memory :=
  match delegate_of_candidate 8 add 5 with
  | Some d => d
  | None => delegate_default 8
  end.

(** [bound_to_counter], and then [d.connect<&add>(5);] *)
Definition rebound_to_add_5 : delegate Z Z memory :=
  match connect_candidate 8 add 5 bound_to_counter with
  | Some d => d
  | None => delegate_default 8
  end.

(** [bound_to_add_5], and then
    [d.connect<&counter::increment>(&other);] *)
Definition rebound_to_other_counter : delegate Z Z memory :=
  match connect_candidate 8 (member_candidate 8 counter_increment)
          other_counter_address bound_to_add_5 with
  | Some d => d
  | None => delegate_default 8
  end.

(** [unsigned]: four bytes. *)
Definition unsigned : cxx_type :=
  {| ty_name := "unsigned";
     ty_val := Z;
     ty_sizeof := 4;
     ty_is_class := false;
     ty_is_trivially_copyable := true;
     ty_is_trivially_destructible := true;
     ty_to_bytes := le_split 4;
     ty_from_bytes := le_combine;
     ty_to_bytes_length := length_le_split 4 |}.

(** [int nth_call(unsigned &n, int x) { n += 1; return n * x; }],
    curried on [n]. *)
Definition nth_call : candidate_t Z Z memory unsigned :=
  Build_candidate_t Z Z memory unsigned "nth_call"
    (Some (fun n x m => let n' := (n + 1) mod 2 ^ 32 in (n' * x, n', m))).

(** [int add_long(long v, int x) { return v + x; }], curried on an [int]
    and curried on an [unsigned]: one candidate, two types of value. *)
Definition add_long_int : candidate_t Z Z memory int :=
  Build_candidate_t Z Z memory int "add_long" (Some (fun v x m => (v + x, v, m))).

Definition add_long_unsigned : candidate_t Z Z memory unsigned :=
  Build_candidate_t Z Z memory unsigned "add_long" (Some (fun v x m => (v + x, v, m))).

(** [struct tally { unsigned char n; int operator()(int x)
    { n += 1; return n * x; } };] *)
Definition tally : invokable_t Z Z memory :=
  {| invokable_type :=
       {| ty_name := "tally";
          ty_val := Z;
          ty_sizeof := 1;
          ty_is_class := true;
          ty_is_trivially_copyable := true;
          ty_is_trivially_destructible := true;
          ty_to_bytes := le_split 1;
          ty_from_bytes := le_combine;
          ty_to_bytes_length := length_le_split 1 |};
     invokable_call := Some (fun n x m => let n' := (n + 1) mod 2 ^ 8 in (n' * x, n', m));
     invokable_move := fun n => n |}.

(** [struct with_target { counter *target; int operator()(int n) const
    { return target->increment(n); } };]: a function object of the size
    of a pointer. *)
Definition with_target : invokable_t Z Z memory :=
  {| invokable_type :=
       {| ty_name := "with_target";
          ty_val := Z;
          ty_sizeof := 8;
          ty_is_class := true;
          ty_is_trivially_copyable := true;
          ty_is_trivially_destructible := true;
          ty_to_bytes := le_split 8;
          ty_from_bytes := le_combine;
          ty_to_bytes_length := length_le_split 8 |};
     invokable_call := Some (fun target n m =>
                               let value := load m target + n in
                               (value, target, store m target value));
     invokable_move := fun target => target |}.

(** [struct wide { int a; int b; int c; };], twelve bytes, as the value
    of a curried function [int first(wide w, int x) { return w.a + x; }]. *)
Definition wide : cxx_type :=
  {| ty_name := "wide";
     ty_val := Z;
     ty_sizeof := 12;
     ty_is_class := true;
     ty_is_trivially_copyable := true;
     ty_is_trivially_destructible := true;
     ty_to_bytes := le_split 12;
     ty_from_bytes := le_combine;
     ty_to_bytes_length := length_le_split 12 |}.

Definition first : candidate_t Z Z memory wide :=
  Build_candidate_t Z Z memory wide "first"
    (Some (fun v x m => (v mod 2 ^ 32 + x, v, m))).

End Program.

(** ** The delegate as an object that its callables can reach

    Above, the callables work on a world that the delegate is not part
    of.  Here the delegate lies in the memory they work on, so that a
    callable can reset or connect the delegate it is called through: [fn]
    is an address, the code at an address is found in the text of the
    program, and a trampoline gets at the buffer through the memory. *)

Record delegate_object : Type := {
  object_storage : storage_type;
  object_fn : option fn_addr
}.

Record machine (Globals : Type) : Type := {
  this_delegate : delegate_object;
  globals : Globals
}.

Arguments this_delegate {Globals} _.
Arguments globals {Globals} _.

Section Object.

Variables Ret Args Globals : Type.
Variable ptr_size : nat.

(** The code of a trampoline, the buffer being that of [this_delegate]. *)
Definition code_type : Type :=
  Args -> machine Globals -> Ret * machine Globals.

Definition text_type : Type := fn_addr -> option code_type.

(** The lambda of [connect<Function>]: the function is called, the buffer
    is not looked at. *)
Definition function_code (f : Args -> machine Globals -> Ret * machine Globals) : code_type :=
  fun args m => f args m.

(** The lambda of [connect<Candidate, Type>] for a member and a pointer
    to an instance: the pointer is read from the buffer and the member is
    called on the pointee. *)
Definition member_code (f : Z -> Args -> machine Globals -> Ret * machine Globals)
    : code_type :=
  fun args m => f (reinterpret (void_ptr ptr_size) (object_storage (this_delegate m))) args m.

(** [delegate()] *)
Definition object_default : delegate_object :=
  {| object_storage := placement_new (ty_to_bytes (void_ptr ptr_size) nullptr)
                                     (repeat Byte.x00 ptr_size);
     object_fn := None |}.

(** [connect<Function>()] on the delegate in the memory *)
Definition object_connect_function (Function : string) (m : machine Globals)
    : machine Globals :=
  {| this_delegate :=
       {| object_storage := placement_new (ty_to_bytes (void_ptr ptr_size) nullptr)
                                          (object_storage (this_delegate m));
          object_fn := Some (lambda_function Function) |};
     globals := globals m |}.

(** [connect<Candidate>(instance)] on the delegate in the memory, for a
    member of [Class] and a pointer to an instance of it *)
Definition object_connect_member (Candidate Class : string) (instance : Z)
    (m : machine Globals) : machine Globals :=
  {| this_delegate :=
       {| object_storage := placement_new (ty_to_bytes (pointer_to ptr_size Class) instance)
                                          (object_storage (this_delegate m));
          object_fn := Some (lambda_candidate Candidate (ty_name (pointer_to ptr_size Class))) |};
     globals := globals m |}.

(** [reset()] on the delegate in the memory *)
Definition object_reset (m : machine Globals) : machine Globals :=
  {| this_delegate :=
       {| object_storage := placement_new (ty_to_bytes (void_ptr ptr_size) nullptr)
                                          (object_storage (this_delegate m));
          object_fn := None |};
     globals := globals m |}.

(** [operator bool] *)
Definition object_bool (d : delegate_object) : bool :=
  match object_fn d with Some _ => true | None => false end.

(** [operator==] *)
Definition object_eq (d other : delegate_object) : bool :=
  match object_fn d, object_fn other with
  | None, None => true
  | Some a, Some b => fn_addr_eqb a b
  | _, _ => false
  end.

(** [operator()] on the delegate in the memory: [assert(fn)], then the
    code at [fn] runs on the memory, and what it returns is returned. *)
Definition object_invoke (text : text_type) (args : Args) (m : machine Globals)
    : option (Ret * machine Globals) :=
  match object_fn (this_delegate m) with
  | None => None
  | Some a =>
      match text a with
      | None => None
      | Some code => Some (code args m)
      end
  end.

(** A run of calls on the delegate in the memory. *)
Fixpoint object_invoke_all (text : text_type) (l : list Args) (m : machine Globals)
    : option (list Ret * machine Globals) :=
  match l with
  | [] => Some ([], m)
  | args :: l' =>
      match object_invoke text args m with
      | None => None
      | Some (r, m') =>
          match object_invoke_all text l' m' with
          | None => None
          | Some (rs, m'') => Some (r :: rs, m'')
          end
      end
  end.

(** A callable that works on the globals alone. *)
Definition on_globals (f : Args -> Globals -> Ret * Globals)
    : Args -> machine Globals -> Ret * machine Globals :=
  fun args m =>
    let (r, g) := f args (globals m) in
    (r, {| this_delegate := this_delegate m; globals := g |}).

(** A callable that leaves the trampoline of the delegate alone. *)
Definition keeps_fn (f : Args -> machine Globals -> Ret * machine Globals) : Prop :=
  forall args m, object_fn (this_delegate (snd (f args m))) = object_fn (this_delegate m).

End Object.

Arguments function_code {Ret Args Globals} f.
Arguments member_code {Ret Args Globals} ptr_size f.
Arguments object_connect_function {Globals} ptr_size Function m.
Arguments object_connect_member {Globals} ptr_size Candidate Class instance m.
Arguments object_reset {Globals} ptr_size m.
Arguments object_invoke {Ret Args Globals} text args m.
Arguments object_invoke_all {Ret Args Globals} text l m.
Arguments on_globals {Ret Args Globals} f.
Arguments keeps_fn {Ret Args Globals} f.

(** A listener that disconnects itself: a delegate [d] of type [int(int)]
    in the memory, and
    [int once(int x) { d.reset(); return x; }],
    [int twice(int x) { return 2 * x; }]. *)
Module Listener.

Definition once : Z -> machine Program.memory -> Z * machine Program.memory :=
  fun x m => (x, object_reset 8 m).

Definition twice : Z -> machine Program.memory -> Z * machine Program.memory :=
  on_globals (fun x g => (2 * x, g)).

Definition text : text_type Z Z Program.memory :=
  fun a =>
    match a with
    | lambda_function "once" => Some (function_code once)
    | lambda_function "twice" => Some (function_code twice)
    | lambda_candidate "counter::increment" "counter*" =>
        Some (member_code 8 (fun this => on_globals (fun n g =>
                                let value := Program.load g this + n in
                                (value, Program.store g this value))))
    | _ => None
    end.

(** [delegate<int(int)> d;] *)
Definition start : machine Program.memory :=
  {| this_delegate := object_default 8; globals := Program.initial_memory |}.

(** [d.connect<&once>();] *)
Definition connected_to_once : machine Program.memory :=
  object_connect_function 8 "once" start.

(** [d.connect<&counter::increment>(&c);] *)
Definition connected_to_counter : machine Program.memory :=
  object_connect_member 8 "counter::increment" "counter" Program.counter_address start.

End Listener.

(** A trampoline that leaves a buffer of the size of a pointer at that
    size. *)
Definition keeps_size {Ret Args World : Type} (ptr_size : nat)
    (f : proto_fn_ptr Ret Args World) : Prop :=
  forall st args w,
    List.length st = ptr_size ->
    List.length (snd (fst (fp_code f st args w))) = ptr_size.

(** What a caller can tell two delegates apart by, short of [instance]:
    truthiness, comparison with any delegate, and the results of any run
    of calls. *)
Definition same_behaviour {Ret Args World : Type} (d1 d2 : delegate Ret Args World) : Prop :=
  operator_bool d1 = operator_bool d2
  /\ (forall other, operator_eq d1 other = operator_eq d2 other)
  /\ (forall l w, observed (invoke_all d1 l w) = observed (invoke_all d2 l w)).

(** A run of direct calls of a function, each in the world the one before
    left. *)
Fixpoint direct_calls {Ret Args World : Type} (f : Args -> World -> Ret * World)
    (l : list Args) (w : World) : list Ret * World :=
  match l with
  | [] => ([], w)
  | args :: l' =>
      let (r, w') := f args w in
      let (rs, w'') := direct_calls f l' w' in
      (r :: rs, w'')
  end.

(** A run of direct calls of a callable on an object that it takes by
    reference, each on the object and in the world the one before left. *)
Fixpoint direct_calls_on {Ret Args World V : Type} (call : V -> Args -> World -> Ret * V * World)
    (v : V) (l : list Args) (w : World) : list Ret * V * World :=
  match l with
  | [] => ([], v, w)
  | args :: l' =>
      let '(r, v', w') := call v args w in
      let '(rs, v'', w'') := direct_calls_on call v' l' w' in
      (r :: rs, v'', w'')
  end.

(** ** The buffer *)

Lemma placement_new_firstn (bs : list byte) (st : storage_type) :
  firstn (List.length bs) (placement_new bs st) = bs.
Proof.
  unfold placement_new.
  rewrite firstn_app, Nat.sub_diag, firstn_all. cbn. apply app_nil_r.
Qed.

Lemma placement_new_length (bs : list byte) (st : storage_type) :
  (List.length bs <= List.length st)%nat ->
  List.length (placement_new bs st) = List.length st.
Proof.
  intros H. unfold placement_new.
  rewrite length_app, length_skipn. lia.
Qed.

Lemma placement_new_whole (bs : list byte) (st : storage_type) :
  List.length bs = List.length st -> placement_new bs st = bs.
Proof.
  intros H. unfold placement_new.
  rewrite H, skipn_all. apply app_nil_r.
Qed.

Lemma placement_new_again (bs bs' : list byte) (st : storage_type) :
  List.length bs' = List.length bs ->
  placement_new bs' (placement_new bs st) = placement_new bs' st.
Proof.
  intros H. unfold placement_new.
  rewrite H, skipn_app, Nat.sub_diag, skipn_all. reflexivity.
Qed.

Lemma placement_new_prefix (n : nat) (bs : list byte) (st1 st2 : storage_type) :
  List.length bs = n ->
  firstn n (placement_new bs st1) = firstn n (placement_new bs st2).
Proof.
  intros <-. now rewrite !placement_new_firstn.
Qed.

Lemma reinterpret_placement_new (T : cxx_type) (v : ty_val T) (st : storage_type) :
  repr_ok T v ->
  reinterpret T (placement_new (ty_to_bytes T v) st) = v.
Proof.
  intros H. unfold reinterpret.
  rewrite <- (ty_to_bytes_length T v) at 1.
  now rewrite placement_new_firstn.
Qed.

Lemma reinterpret_prefix (T : cxx_type) (st1 st2 : storage_type) :
  firstn (ty_sizeof T) st1 = firstn (ty_sizeof T) st2 ->
  reinterpret T st1 = reinterpret T st2.
Proof.
  unfold reinterpret. now intros ->.
Qed.

Lemma fn_addr_eqb_eq (a b : fn_addr) : fn_addr_eqb a b = true <-> a = b.
Proof.
  destruct a, b; cbn; try (split; [discriminate | intros H; discriminate H]).
  - rewrite String.eqb_eq. split; congruence.
  - rewrite andb_true_iff, !String.eqb_eq. split; [intros []|intros H; inversion H]; subst; auto.
  - rewrite String.eqb_eq. split; congruence.
Qed.

Lemma fn_addr_eqb_refl (a : fn_addr) : fn_addr_eqb a a = true.
Proof. now apply fn_addr_eqb_eq. Qed.

Section DelegateFacts.

Variables Ret Args World : Type.
Variable ptr_size : nat.

Local Abbreviation delegate := (delegate Ret Args World).

(** An address of the machine is read back from its bytes. *)
Lemma pointer_repr_ok (pointee : string) (p : Z) :
  0 <= p < 2 ^ (Z.of_nat ptr_size * 8) ->
  repr_ok (pointer_to ptr_size pointee) p.
Proof.
  intros H. unfold repr_ok. cbn.
  rewrite le_combine_split. now apply Z.mod_small.
Qed.

Lemma null_marker_length :
  List.length (ty_to_bytes (void_ptr ptr_size) nullptr) = ptr_size.
Proof. apply (ty_to_bytes_length (void_ptr ptr_size)). Qed.

Lemma reinterpret_null_marker (st : storage_type) :
  reinterpret (void_ptr ptr_size)
    (placement_new (ty_to_bytes (void_ptr ptr_size) nullptr) st) = nullptr.
Proof.
  apply reinterpret_placement_new.
  unfold repr_ok. cbn. rewrite le_combine_split. apply Z.mod_0_l.
  apply Z.pow_nonzero; lia.
Qed.

Lemma connect_candidate_asserts_true (T : cxx_type) (Candidate : candidate_t Ret Args World T) :
  connect_candidate_asserts ptr_size Candidate = true <->
  (ty_sizeof T <= ptr_size)%nat
  /\ ty_is_trivially_copyable T = true
  /\ ty_is_trivially_destructible T = true
  /\ is_invocable_r (candidate_call Candidate) = true.
Proof.
  unfold connect_candidate_asserts.
  rewrite !andb_true_iff, Nat.leb_le. tauto.
Qed.

Lemma connect_invokable_asserts_true (Invokable : invokable_t Ret Args World) :
  connect_invokable_asserts ptr_size Invokable = true <->
  (ty_sizeof (invokable_type Invokable) < ptr_size)%nat
  /\ ty_is_class (invokable_type Invokable) = true
  /\ ty_is_trivially_destructible (invokable_type Invokable) = true
  /\ is_invocable_r (invokable_call Invokable) = true.
Proof.
  unfold connect_invokable_asserts.
  rewrite !andb_true_iff, Nat.ltb_lt. tauto.
Qed.

(** The object that [connect] constructs from a trivially copyable
    function object is the function object. *)
Lemma move_construct_trivial (Invokable : invokable_t Ret Args World)
    (o : ty_val (invokable_type Invokable)) :
  ty_is_trivially_copyable (invokable_type Invokable) = true ->
  move_construct Invokable o = o.
Proof.
  unfold move_construct. now intros ->.
Qed.

(** The trampoline of a value or an instance, run on a buffer that
    holds the value. *)
Lemma candidate_thunk_bound (T : cxx_type)
    (call : ty_val T -> Args -> World -> Ret * ty_val T * World)
    (v : ty_val T) (st : storage_type) (args : Args) (w : World) :
  repr_ok T v ->
  candidate_thunk T call (placement_new (ty_to_bytes T v) st) args w =
  let '(r, v', w') := call v args w in
  (r, placement_new (ty_to_bytes T v') st, w').
Proof.
  intros H. unfold candidate_thunk.
  rewrite (reinterpret_placement_new T v st H).
  destruct (call v args w) as [[r v'] w'].
  rewrite placement_new_again; [reflexivity|].
  now rewrite !ty_to_bytes_length.
Qed.

(** ** Binding and calling *)

(** C1. A member [m] bound to the instance at address [i]: the call
    through the delegate returns what [i.m(args)] returns and leaves the
    world, the instance in it, as that call leaves it; [instance()] is
    [i] after the binding, and the call leaves the delegate as it was. *)
Theorem connect_member_invoke
    (m : member_t Ret Args World) (call : Z -> Args -> World -> Ret * World)
    (i : Z) (d : delegate) (args : Args) (w : World) :
  member_call m = Some call ->
  0 <= i < 2 ^ (Z.of_nat ptr_size * 8) ->
  exists d',
    connect_candidate ptr_size (member_candidate ptr_size m) i d = Some d'
    /\ instance ptr_size d' = i
    /\ invoke d' args w = Some (fst (call i args w), d', snd (call i args w)).
Proof.
  intros Hm Hi.
  pose proof (pointer_repr_ok (member_class m) i Hi) as Hrepr.
  unfold connect_candidate, connect_candidate_asserts.
  cbn [member_candidate candidate_call candidate_name].
  rewrite Hm. cbn [option_map is_invocable_r].
  cbn [pointer_to ty_sizeof ty_is_trivially_copyable ty_is_trivially_destructible].
  rewrite Nat.leb_refl. cbn [andb].
  eexists. split; [reflexivity|]. split.
  - unfold instance. cbn [storage].
    exact (reinterpret_placement_new (void_ptr ptr_size) i (storage d) Hrepr).
  - unfold invoke. cbn [fn storage fp_code].
    rewrite (candidate_thunk_bound (pointer_to ptr_size (member_class m))
               (invoke_member call) i (storage d) args w Hrepr).
    unfold invoke_member. destruct (call i args w) as [r w']. reflexivity.
Qed.

(** C2. A free function [f] bound to the delegate: the call through the
    delegate returns what [f(args)] returns, and leaves the world as that
    call leaves it and the delegate as it was. *)
Theorem connect_function_invoke
    (Function : function_t Ret Args World) (f : Args -> World -> Ret * World)
    (d : delegate) (args : Args) (w : World) :
  function_call Function = Some f ->
  exists d',
    connect_function ptr_size Function d = Some d'
    /\ invoke d' args w = Some (fst (f args w), d', snd (f args w)).
Proof.
  intros Hf. unfold connect_function. rewrite Hf.
  eexists. split; [reflexivity|].
  unfold invoke. cbn [fn storage fp_code].
  destruct (f args w) as [r w']. reflexivity.
Qed.

(** C3. A free function [g] curried on a value [v] of a type that is no
    larger than a pointer, trivially copyable and trivially
    destructible: the binding is accepted and the call through the
    delegate returns what [g(v, args)] returns; what [g] does to its
    first argument, it does to the copy in the buffer. *)
Theorem connect_curried_invoke
    (T : cxx_type) (Candidate : candidate_t Ret Args World T)
    (g : ty_val T -> Args -> World -> Ret * ty_val T * World)
    (v : ty_val T) (d : delegate) (args : Args) (w : World) :
  candidate_call Candidate = Some g ->
  (ty_sizeof T <= ptr_size)%nat ->
  ty_is_trivially_copyable T = true ->
  ty_is_trivially_destructible T = true ->
  repr_ok T v ->
  exists d',
    connect_candidate ptr_size Candidate v d = Some d'
    /\ invoke d' args w =
       let '(r, v', w') := g v args w in
       Some (r, {| storage := placement_new (ty_to_bytes T v') (storage d);
                   fn := fn d' |}, w').
Proof.
  intros Hg Hsize Hcopy Hdtor Hrepr.
  assert (Hok : connect_candidate_asserts ptr_size Candidate = true).
  { apply connect_candidate_asserts_true. rewrite Hg. cbn. auto. }
  unfold connect_candidate. rewrite Hg, Hok.
  eexists. split; [reflexivity|].
  unfold invoke. cbn [fn storage fp_code].
  rewrite (candidate_thunk_bound T g v (storage d) args w Hrepr).
  destruct (g v args w) as [[r v'] w']. reflexivity.
Qed.

(** C4. A function object [o] of a class smaller than a pointer and
    trivially destructible, with a call operator for the signature, whose
    bytes are copied into the buffer, the class being trivially copyable:
    the binding is accepted and the call through the delegate returns what
    [o(args)] returns; what the call does to [o], it does to the copy in
    the buffer. *)
Theorem connect_invokable_invoke
    (Invokable : invokable_t Ret Args World)
    (call : ty_val (invokable_type Invokable) -> Args -> World ->
            Ret * ty_val (invokable_type Invokable) * World)
    (o : ty_val (invokable_type Invokable)) (d : delegate) (args : Args) (w : World) :
  invokable_call Invokable = Some call ->
  (ty_sizeof (invokable_type Invokable) < ptr_size)%nat ->
  ty_is_class (invokable_type Invokable) = true ->
  ty_is_trivially_destructible (invokable_type Invokable) = true ->
  ty_is_trivially_copyable (invokable_type Invokable) = true ->
  repr_ok (invokable_type Invokable) o ->
  exists d',
    connect_invokable ptr_size Invokable o d = Some d'
    /\ invoke d' args w =
       let '(r, o', w') := call o args w in
       Some (r, {| storage := placement_new (ty_to_bytes (invokable_type Invokable) o')
                                            (storage d);
                   fn := fn d' |}, w').
Proof.
  intros Hcall Hsize Hclass Hdtor Hcopy Hrepr.
  assert (Hok : connect_invokable_asserts ptr_size Invokable = true).
  { apply connect_invokable_asserts_true. rewrite Hcall. cbn. auto. }
  unfold connect_invokable. rewrite Hcall, Hok, (move_construct_trivial Invokable o Hcopy).
  eexists. split; [reflexivity|].
  unfold invoke. cbn [fn storage fp_code].
  rewrite (candidate_thunk_bound (invokable_type Invokable) call o (storage d) args w Hrepr).
  destruct (call o args w) as [[r o'] w']. reflexivity.
Qed.

(** ** Truthiness, comparison, [instance] *)

Lemma connect_function_fn (Function : function_t Ret Args World) (d d' : delegate) :
  connect_function ptr_size Function d = Some d' ->
  storage d' = placement_new (ty_to_bytes (void_ptr ptr_size) nullptr) (storage d)
  /\ exists f, fn d' = Some f /\ fp_addr f = lambda_function (function_name Function).
Proof.
  unfold connect_function. destruct (function_call Function); [|discriminate].
  intros [= <-]. cbn. eauto.
Qed.

Lemma connect_candidate_fn (T : cxx_type) (Candidate : candidate_t Ret Args World T)
    (v : ty_val T) (d d' : delegate) :
  connect_candidate ptr_size Candidate v d = Some d' ->
  connect_candidate_asserts ptr_size Candidate = true
  /\ storage d' = placement_new (ty_to_bytes T v) (storage d)
  /\ exists call, candidate_call Candidate = Some call
       /\ fn d' = Some {| fp_addr := lambda_candidate (candidate_name Candidate) (ty_name T);
                          fp_code := candidate_thunk T call |}.
Proof.
  unfold connect_candidate. destruct (candidate_call Candidate) as [call|]; [|discriminate].
  destruct (connect_candidate_asserts ptr_size Candidate); [|discriminate].
  intros [= <-]. cbn. eauto.
Qed.

Lemma connect_invokable_fn (Invokable : invokable_t Ret Args World)
    (o : ty_val (invokable_type Invokable)) (d d' : delegate) :
  connect_invokable ptr_size Invokable o d = Some d' ->
  connect_invokable_asserts ptr_size Invokable = true
  /\ storage d' = placement_new (ty_to_bytes (invokable_type Invokable)
                                   (move_construct Invokable o)) (storage d)
  /\ exists call, invokable_call Invokable = Some call
       /\ fn d' = Some {| fp_addr := lambda_invokable (ty_name (invokable_type Invokable));
                          fp_code := candidate_thunk (invokable_type Invokable) call |}.
Proof.
  unfold connect_invokable. destruct (invokable_call Invokable) as [call|]; [|discriminate].
  destruct (connect_invokable_asserts ptr_size Invokable); [|discriminate].
  intros [= <-]. cbn. eauto.
Qed.

Lemma operator_eq_iff (d1 d2 : delegate) :
  operator_eq d1 d2 = true <-> option_map fp_addr (fn d1) = option_map fp_addr (fn d2).
Proof.
  unfold operator_eq. destruct (fn d1) as [f|], (fn d2) as [g|]; cbn.
  - rewrite fn_addr_eqb_eq. split; congruence.
  - split; discriminate.
  - split; discriminate.
  - tauto.
Qed.

Lemma operator_eq_false_iff (d1 d2 : delegate) :
  operator_eq d1 d2 = false <-> option_map fp_addr (fn d1) <> option_map fp_addr (fn d2).
Proof.
  rewrite <- operator_eq_iff. destruct (operator_eq d1 d2); split; congruence.
Qed.

(** C6. Two delegates are equal exactly when their trampolines are at
    the same address, and [!=] is the negation; the buffers play no part.
    Bound to the same member or curried function, with whatever instances
    or values, or to the same free function, they are equal; bound to
    different functions they are not. *)
Theorem operator_eq_trampoline (d1 d2 : delegate) :
  (operator_eq d1 d2 = true <-> option_map fp_addr (fn d1) = option_map fp_addr (fn d2))
  /\ operator_neq d1 d2 = negb (operator_eq d1 d2)
  /\ (forall st1 st2,
        operator_eq {| storage := st1; fn := fn d1 |} {| storage := st2; fn := fn d2 |}
        = operator_eq d1 d2)
  /\ (forall T (Candidate : candidate_t Ret Args World T) v1 v2 d1' d2',
        connect_candidate ptr_size Candidate v1 d1 = Some d1' ->
        connect_candidate ptr_size Candidate v2 d2 = Some d2' ->
        operator_eq d1' d2' = true)
  /\ (forall T1 T2 (Candidate1 : candidate_t Ret Args World T1)
             (Candidate2 : candidate_t Ret Args World T2) v1 v2 d1' d2',
        candidate_name Candidate1 <> candidate_name Candidate2 ->
        connect_candidate ptr_size Candidate1 v1 d1 = Some d1' ->
        connect_candidate ptr_size Candidate2 v2 d2 = Some d2' ->
        operator_eq d1' d2' = false)
  /\ (forall Function d1' d2',
        connect_function ptr_size Function d1 = Some d1' ->
        connect_function ptr_size Function d2 = Some d2' ->
        operator_eq d1' d2' = true)
  /\ (forall Function1 Function2 d1' d2',
        function_name Function1 <> function_name Function2 ->
        connect_function ptr_size Function1 d1 = Some d1' ->
        connect_function ptr_size Function2 d2 = Some d2' ->
        operator_eq d1' d2' = false).
Proof.
  split; [apply operator_eq_iff|]. split; [reflexivity|]. split; [reflexivity|].
  repeat split.
  - intros T Candidate v1 v2 d1' d2' H1 H2.
    apply connect_candidate_fn in H1 as (_ & _ & c1 & E1 & F1).
    apply connect_candidate_fn in H2 as (_ & _ & c2 & E2 & F2).
    apply operator_eq_iff. now rewrite F1, F2.
  - intros T1 T2 Candidate1 Candidate2 v1 v2 d1' d2' Hne H1 H2.
    apply connect_candidate_fn in H1 as (_ & _ & c1 & E1 & F1).
    apply connect_candidate_fn in H2 as (_ & _ & c2 & E2 & F2).
    apply operator_eq_false_iff. rewrite F1, F2. cbn. congruence.
  - intros Function d1' d2' H1 H2.
    apply connect_function_fn in H1 as (_ & f1 & F1 & A1).
    apply connect_function_fn in H2 as (_ & f2 & F2 & A2).
    apply operator_eq_iff. rewrite F1, F2. cbn. congruence.
  - intros Function1 Function2 d1' d2' Hne H1 H2.
    apply connect_function_fn in H1 as (_ & f1 & F1 & A1).
    apply connect_function_fn in H2 as (_ & f2 & F2 & A2).
    apply operator_eq_false_iff. rewrite F1, F2. cbn. congruence.
Qed.

(** C7. A delegate is true exactly when [fn] is not null: false when
    default constructed, true after every [connect] that is accepted,
    false after [reset]. *)
Theorem operator_bool_lifecycle (d : delegate) :
  (operator_bool d = true <-> fn d <> None)
  /\ operator_bool (delegate_default ptr_size : delegate) = false
  /\ (forall Function d',
        connect_function ptr_size Function d = Some d' -> operator_bool d' = true)
  /\ (forall T (Candidate : candidate_t Ret Args World T) v d',
        connect_candidate ptr_size Candidate v d = Some d' -> operator_bool d' = true)
  /\ (forall Invokable o d',
        connect_invokable ptr_size Invokable o d = Some d' -> operator_bool d' = true)
  /\ operator_bool (reset ptr_size d) = false.
Proof.
  unfold operator_bool. repeat split.
  - destruct (fn d); congruence.
  - destruct (fn d); congruence.
  - intros Function d' H. apply connect_function_fn in H as (_ & f & -> & _). reflexivity.
  - intros T Candidate v d' H.
    apply connect_candidate_fn in H as (_ & _ & c & _ & ->). reflexivity.
  - intros Invokable o d' H.
    apply connect_invokable_fn in H as (_ & _ & c & _ & ->). reflexivity.
Qed.

(** C9. [instance()] is the first [ptr_size] bytes of the buffer read as
    an address, whatever put them there: it is a function of the buffer
    alone and looks at nothing else.  It is null in a default constructed
    delegate, after [connect] of a free function and after [reset]; after
    the other two [connect]s it is what the bytes of the payload, followed
    by the bytes left over from before, read as. *)
Theorem instance_reads_storage (d : delegate) :
  instance ptr_size d = le_combine (firstn ptr_size (storage d))
  /\ (forall d2 : delegate, storage d2 = storage d -> instance ptr_size d2 = instance ptr_size d)
  /\ instance ptr_size (delegate_default ptr_size : delegate) = nullptr
  /\ (forall Function d',
        connect_function ptr_size Function d = Some d' -> instance ptr_size d' = nullptr)
  /\ instance ptr_size (reset ptr_size d) = nullptr
  /\ (forall T (Candidate : candidate_t Ret Args World T) v d',
        connect_candidate ptr_size Candidate v d = Some d' ->
        instance ptr_size d' =
        le_combine (firstn ptr_size (ty_to_bytes T v ++ skipn (ty_sizeof T) (storage d))))
  /\ (forall Invokable o d',
        connect_invokable ptr_size Invokable o d = Some d' ->
        instance ptr_size d' =
        le_combine (firstn ptr_size (ty_to_bytes (invokable_type Invokable)
                                       (move_construct Invokable o)
                                     ++ skipn (ty_sizeof (invokable_type Invokable)) (storage d)))).
Proof.
  unfold instance. repeat split.
  - now intros d2 ->.
  - apply reinterpret_null_marker.
  - intros Function d' H. apply connect_function_fn in H as (-> & _).
    apply reinterpret_null_marker.
  - apply reinterpret_null_marker.
  - intros T Candidate v d' H. apply connect_candidate_fn in H as (_ & -> & _).
    unfold placement_new. now rewrite ty_to_bytes_length.
  - intros Invokable o d' H. apply connect_invokable_fn in H as (_ & -> & _).
    unfold placement_new. now rewrite ty_to_bytes_length.
Qed.

(** ** The states of a delegate *)

Ltac storage_size :=
  rewrite placement_new_length;
  rewrite ?null_marker_length, ?length_le_split, ?ty_to_bytes_length, ?repeat_length;
  try lia.

Lemma candidate_thunk_keeps_size (T : cxx_type)
    (call : ty_val T -> Args -> World -> Ret * ty_val T * World) (a : fn_addr) :
  (ty_sizeof T <= ptr_size)%nat ->
  keeps_size ptr_size {| fp_addr := a; fp_code := candidate_thunk T call |}.
Proof.
  intros Hsize st args w Hst. cbn. unfold candidate_thunk.
  destruct (call (reinterpret T st) args w) as [[r v'] w']. cbn [fst snd].
  storage_size.
Qed.

(** The buffer of a delegate always has the size of a pointer. *)
Lemma reachable_storage_size (d : delegate) :
  reachable ptr_size d ->
  List.length (storage d) = ptr_size
  /\ forall f, fn d = Some f -> keeps_size ptr_size f.
Proof.
  induction 1 as [ | Function d d' _ [IHs IHf] H
                   | T Candidate v d d' _ [IHs IHf] H
                   | Invokable o d d' _ [IHs IHf] H
                   | d _ [IHs IHf]
                   | d args w r d' w' _ [IHs IHf] H ].
  - split; [|discriminate]. unfold delegate_default. cbn [storage]. storage_size.
  - unfold connect_function in H.
    destruct (function_call Function) as [f|]; [|discriminate].
    injection H as <-. cbn [storage fn]. split; [storage_size|].
    intros f' [= <-] st args w Hst. cbn. now destruct (f args w).
  - apply connect_candidate_fn in H as (Hok & -> & call & _ & ->).
    apply connect_candidate_asserts_true in Hok as (Hsize & _).
    split; [storage_size|].
    intros f' [= <-]. now apply candidate_thunk_keeps_size.
  - apply connect_invokable_fn in H as (Hok & -> & call & _ & ->).
    apply connect_invokable_asserts_true in Hok as (Hsize & _).
    split; [storage_size|].
    intros f' [= <-]. apply candidate_thunk_keeps_size. lia.
  - unfold reset. cbn [storage fn]. split; [storage_size|discriminate].
  - unfold invoke in H. destruct (fn d) as [f|] eqn:E; [|discriminate].
    pose proof (IHf f eq_refl (storage d) args w IHs) as Hk.
    destruct (fp_code f (storage d) args w) as [[r0 st'] w0].
    injection H as _ <- _. cbn in *. auto.
Qed.

(** Runs of calls through the trampoline of a value see the first
    [sizeof(Type)] bytes of the buffer and no others. *)
Lemma invoke_all_candidate_thunk (T : cxx_type)
    (call : ty_val T -> Args -> World -> Ret * ty_val T * World) (a : fn_addr)
    (l : list Args) :
  forall (st1 st2 : storage_type) (w : World),
    firstn (ty_sizeof T) st1 = firstn (ty_sizeof T) st2 ->
    observed (invoke_all {| storage := st1;
                            fn := Some {| fp_addr := a; fp_code := candidate_thunk T call |} |}
                         l w)
    = observed (invoke_all {| storage := st2;
                              fn := Some {| fp_addr := a; fp_code := candidate_thunk T call |} |}
                           l w).
Proof.
  induction l as [|args l IH]; intros st1 st2 w Hst; [reflexivity|].
  cbn [invoke_all]. unfold invoke. cbn [fn storage fp_code].
  unfold candidate_thunk at 1 3.
  rewrite (reinterpret_prefix T st1 st2 Hst).
  destruct (call (reinterpret T st2) args w) as [[r v'] w'].
  specialize (IH (placement_new (ty_to_bytes T v') st1)
                 (placement_new (ty_to_bytes T v') st2) w'
                 (placement_new_prefix _ _ st1 st2 (ty_to_bytes_length T v'))).
  destruct (invoke_all _ l w') as [[[rs1 e1] u1]|];
    destruct (invoke_all _ l w') as [[[rs2 e2] u2]|];
    cbn in *; congruence.
Qed.

Lemma same_behaviour_candidate_thunk (T : cxx_type)
    (call : ty_val T -> Args -> World -> Ret * ty_val T * World) (a : fn_addr)
    (st1 st2 : storage_type) :
  firstn (ty_sizeof T) st1 = firstn (ty_sizeof T) st2 ->
  same_behaviour
    {| storage := st1; fn := Some {| fp_addr := a; fp_code := candidate_thunk T call |} |}
    {| storage := st2; fn := Some {| fp_addr := a; fp_code := candidate_thunk T call |} |}.
Proof.
  intros Hst. split; [reflexivity|]. split; [reflexivity|].
  intros l w. now apply invoke_all_candidate_thunk.
Qed.

Lemma null_marker_whole (st : storage_type) :
  List.length st = ptr_size ->
  placement_new (ty_to_bytes (void_ptr ptr_size) nullptr) st
  = ty_to_bytes (void_ptr ptr_size) nullptr.
Proof.
  intros H. apply placement_new_whole. now rewrite null_marker_length.
Qed.

(** After a [connect] of a value, whatever the delegate was before: the
    trampoline and the bytes of the value are those of a delegate
    constructed for that [connect], the other bytes are the old ones. *)
Lemma connect_thunk_rebind (T : cxx_type)
    (call : ty_val T -> Args -> World -> Ret * ty_val T * World) (a : fn_addr)
    (v : ty_val T) (d d1 d2 : delegate) :
  storage d1 = placement_new (ty_to_bytes T v) (storage d) ->
  storage d2 = placement_new (ty_to_bytes T v) (storage (delegate_default ptr_size : delegate)) ->
  fn d1 = Some {| fp_addr := a; fp_code := candidate_thunk T call |} ->
  fn d2 = Some {| fp_addr := a; fp_code := candidate_thunk T call |} ->
  fn d1 = fn d2
  /\ firstn (ty_sizeof T) (storage d1) = firstn (ty_sizeof T) (storage d2)
  /\ skipn (ty_sizeof T) (storage d1) = skipn (ty_sizeof T) (storage d)
  /\ same_behaviour d1 d2.
Proof.
  intros S1 S2 F1 F2.
  assert (Hpre : firstn (ty_sizeof T) (storage d1) = firstn (ty_sizeof T) (storage d2)).
  { rewrite S1, S2. apply placement_new_prefix, ty_to_bytes_length. }
  split; [congruence|]. split; [exact Hpre|]. split.
  - rewrite S1. unfold placement_new.
    rewrite skipn_app, ty_to_bytes_length, Nat.sub_diag, skipn_all2;
      [reflexivity | now rewrite ty_to_bytes_length].
  - destruct d1 as [st1 f1], d2 as [st2 f2]. cbn [storage fn] in *. subst f1 f2.
    now apply same_behaviour_candidate_thunk.
Qed.


End DelegateFacts.

(** ** The program *)

Lemma bound_to_counter_reachable : reachable 8 Program.bound_to_counter.
Proof.
  exact (reach_connect_candidate 8 _ (member_candidate 8 Program.counter_increment)
           Program.counter_address _ _ (reach_default 8) eq_refl).
Qed.

(** C5. A class with a copy constructor of its own, trivially destructible
    and of one byte, is not trivially copyable, and [connect] takes an
    object of it all the same; handed over as the value of a curried
    function, the same object is turned down. *)
Theorem connect_invokable_not_trivially_copyable :
  ty_is_trivially_copyable (invokable_type Program.traced_scale) = false
  /\ connect_invokable_asserts 8 Program.traced_scale = true
  /\ (exists d', connect_invokable 8 Program.traced_scale 3 (delegate_default 8) = Some d'
                 /\ option_map (fun x => fst (fst x)) (invoke d' 7 Program.initial_memory) = Some 21)
  /\ connect_candidate 8 Program.apply_traced_scale 3 (delegate_default 8) = None.
Proof.
  split; [reflexivity|]. split; [reflexivity|]. split; [|reflexivity].
  eexists. split; reflexivity.
Qed.


(** ** The theorems at work on the program *)

Lemma connect_member_invoke_witness :
  exists d',
    connect_candidate 8 (member_candidate 8 Program.counter_increment)
      Program.counter_address (delegate_default 8) = Some d'
    /\ instance 8 d' = Program.counter_address
    /\ invoke d' 5 Program.initial_memory = Some (15, d', [(Program.counter_address, 15)]).
Proof.
  refine (connect_member_invoke Z Z Program.memory 8 Program.counter_increment
            _ Program.counter_address (delegate_default 8) 5 Program.initial_memory
            eq_refl _).
  split; vm_compute; congruence.
Defined.

Lemma connect_function_invoke_witness :
  exists d',
    connect_function 8 Program.twice Program.bound_to_counter = Some d'
    /\ invoke d' 21 Program.initial_memory = Some (42, d', Program.initial_memory).
Proof.
  exact (connect_function_invoke Z Z Program.memory 8 Program.twice
           _ Program.bound_to_counter 21 Program.initial_memory eq_refl).
Defined.

Lemma connect_curried_invoke_witness :
  exists d',
    connect_candidate 8 Program.add (-5) Program.bound_to_counter = Some d'
    /\ invoke d' 7 Program.initial_memory
       = Some (2, {| storage := placement_new (ty_to_bytes Program.int (-5))
                                              (storage Program.bound_to_counter);
                     fn := fn d' |}, Program.initial_memory).
Proof.
  refine (connect_curried_invoke Z Z Program.memory 8 Program.int Program.add
            _ (-5) Program.bound_to_counter 7 Program.initial_memory
            eq_refl _ eq_refl eq_refl eq_refl).
  cbn. lia.
Defined.

Lemma connect_invokable_invoke_witness :
  exists d',
    connect_invokable 8 Program.scale 3 (delegate_default 8) = Some d'
    /\ invoke d' 7 Program.initial_memory
       = Some (21, {| storage := placement_new (ty_to_bytes (invokable_type Program.scale) 3)
                                               (storage (delegate_default 8 : delegate Z Z Program.memory));
                      fn := fn d' |}, Program.initial_memory).
Proof.
  refine (connect_invokable_invoke Z Z Program.memory 8 Program.scale
            _ 3 (delegate_default 8) 7 Program.initial_memory
            eq_refl _ eq_refl eq_refl eq_refl eq_refl).
  cbn. lia.
Defined.

Lemma operator_eq_trampoline_witness :
  exists d1 d2 d3 d4 : delegate Z Z Program.memory,
    connect_candidate 8 Program.add 5 (delegate_default 8) = Some d1
    /\ connect_candidate 8 Program.add 7 Program.bound_to_counter = Some d2
    /\ connect_candidate 8 Program.sub 5 (delegate_default 8) = Some d3
    /\ connect_candidate 8 (member_candidate 8 Program.counter_increment)
         Program.other_counter_address (delegate_default 8) = Some d4
    /\ storage d1 <> storage d2
    /\ operator_eq d1 d2 = true
    /\ operator_eq d1 d3 = false
    /\ instance 8 d4 <> instance 8 Program.bound_to_counter
    /\ operator_eq d4 Program.bound_to_counter = true
    /\ operator_eq d4 d1 = false.
Proof.
  destruct (operator_eq_trampoline Z Z Program.memory 8
              (delegate_default 8) Program.bound_to_counter)
    as (_ & _ & _ & Hsame & _).
  destruct (operator_eq_trampoline Z Z Program.memory 8
              (delegate_default 8) (delegate_default 8))
    as (_ & _ & _ & Hmember & Hdiff & _).
  eexists. eexists. eexists. eexists.
  split; [reflexivity|]. split; [reflexivity|]. split; [reflexivity|].
  split; [reflexivity|].
  split; [vm_compute; discriminate|]. split; [|split; [|split; [|split]]].
  - exact (Hsame Program.int Program.add 5 7 _ _ eq_refl eq_refl).
  - refine (Hdiff Program.int Program.int Program.add Program.sub 5 5 _ _ _ eq_refl eq_refl).
    cbn. discriminate.
  - vm_compute. discriminate.
  - exact (Hmember _ (member_candidate 8 Program.counter_increment)
             Program.other_counter_address Program.counter_address _ _ eq_refl eq_refl).
  - refine (Hdiff _ Program.int (member_candidate 8 Program.counter_increment) Program.add
              Program.other_counter_address 5 _ _ _ eq_refl eq_refl).
    cbn. discriminate.
Defined.

Lemma operator_bool_lifecycle_witness :
  operator_bool (delegate_default 8 : delegate Z Z Program.memory) = false
  /\ operator_bool Program.bound_to_counter = true
  /\ operator_bool Program.rebound_to_add_5 = true
  /\ operator_bool (reset 8 Program.rebound_to_add_5) = false.
Proof.
  destruct (operator_bool_lifecycle Z Z Program.memory 8 (delegate_default 8))
    as (_ & Hdefault & _ & Hbound & _).
  destruct (operator_bool_lifecycle Z Z Program.memory 8 Program.bound_to_counter)
    as (_ & _ & _ & Hrebound & _).
  destruct (operator_bool_lifecycle Z Z Program.memory 8 Program.rebound_to_add_5)
    as (_ & _ & _ & _ & _ & Hreset).
  split; [exact Hdefault|]. split; [|split; [|exact Hreset]].
  - exact (Hbound _ (member_candidate 8 Program.counter_increment)
             Program.counter_address Program.bound_to_counter eq_refl).
  - exact (Hrebound Program.int Program.add 5 Program.rebound_to_add_5 eq_refl).
Defined.


Lemma instance_reads_storage_witness :
  instance 8 (delegate_default 8 : delegate Z Z Program.memory) = 0
  /\ instance 8 Program.bound_to_counter = Program.counter_address
  /\ instance 8 (reset 8 Program.bound_to_counter) = 0
  /\ (exists d', connect_function 8 Program.twice Program.bound_to_counter = Some d'
                 /\ instance 8 d' = 0)
  /\ instance 8 Program.rebound_to_add_5 = 0x7ffc00000005.
Proof.
  destruct (instance_reads_storage Z Z Program.memory 8 Program.bound_to_counter)
    as (_ & _ & Hdefault & Hfunction & Hreset & Hvalue & _).
  destruct (instance_reads_storage Z Z Program.memory 8 (delegate_default 8))
    as (_ & _ & _ & _ & _ & Hmember & _).
  split; [exact Hdefault|].
  split; [exact (Hmember _ (member_candidate 8 Program.counter_increment)
                   Program.counter_address Program.bound_to_counter eq_refl)|].
  split; [exact Hreset|]. split.
  - eexists. split; [reflexivity|]. exact (Hfunction Program.twice _ eq_refl).
  - exact (Hvalue Program.int Program.add 5 Program.rebound_to_add_5 eq_refl).
Defined.

(** ** Callables that reach the delegate *)

Section ObjectFacts.

Variables Ret Args Globals : Type.
Variable ptr_size : nat.

Lemma keeps_fn_on_globals (f : Args -> Globals -> Ret * Globals) :
  keeps_fn (on_globals f).
Proof.
  intros args m. unfold on_globals. now destruct (f args (globals m)).
Qed.

(** A callable that works on the globals alone is called through the
    delegate in the memory as it is through the delegate above: the
    result and the globals are those of the direct call, the delegate is
    left as it was. *)
Lemma object_invoke_on_globals (text : text_type Ret Args Globals)
    (Function : string) (f : Args -> Globals -> Ret * Globals)
    (args : Args) (m : machine Globals) :
  object_fn (this_delegate m) = Some (lambda_function Function) ->
  text (lambda_function Function) = Some (function_code (on_globals f)) ->
  object_invoke text args m
  = Some (fst (f args (globals m)),
          {| this_delegate := this_delegate m; globals := snd (f args (globals m)) |}).
Proof.
  intros Hfn Htext. unfold object_invoke. rewrite Hfn, Htext.
  unfold function_code, on_globals. now destruct (f args (globals m)).
Qed.

Lemma object_invoke_all_keeps_fn (text : text_type Ret Args Globals)
    (a : fn_addr) (code : code_type Ret Args Globals) (l : list Args) :
  text a = Some code ->
  keeps_fn code ->
  forall m,
    object_fn (this_delegate m) = Some a ->
    exists rs m',
      object_invoke_all text l m = Some (rs, m')
      /\ object_fn (this_delegate m') = Some a.
Proof.
  intros Htext Hkeep. induction l as [|args l IH]; intros m Hfn.
  - exists [], m. split; [reflexivity|exact Hfn].
  - cbn [object_invoke_all]. unfold object_invoke. rewrite Hfn, Htext.
    pose proof (Hkeep args m) as Hk. rewrite Hfn in Hk.
    destruct (code args m) as [r m1]. cbn [snd] in Hk.
    destruct (IH m1 Hk) as (rs & m' & -> & Hfn').
    exists (r :: rs), m'. split; [reflexivity|exact Hfn'].
Qed.

(** C10, as the code has it.  [operator()] returns what the trampoline
    returns and writes nothing of its own: the delegate is left as the
    bound callable left it.  The trampolines of a free function and of a
    member leave [fn] alone when the callable does; then any run of calls
    on a bound delegate returns, and leaves a delegate with the trampoline
    it had, still true and equal to the delegate before the calls. *)
Theorem object_invoke_keeps_fn (text : text_type Ret Args Globals)
    (a : fn_addr) (code : code_type Ret Args Globals) (m : machine Globals) :
  object_fn (this_delegate m) = Some a ->
  text a = Some code ->
  (forall args, object_invoke text args m = Some (code args m))
  /\ (forall f : Args -> machine Globals -> Ret * machine Globals,
        keeps_fn f -> keeps_fn (function_code f))
  /\ (forall f : Z -> Args -> machine Globals -> Ret * machine Globals,
        (forall this, keeps_fn (f this)) -> keeps_fn (member_code ptr_size f))
  /\ (keeps_fn code ->
      forall l, exists rs m',
        object_invoke_all text l m = Some (rs, m')
        /\ object_fn (this_delegate m') = object_fn (this_delegate m)
        /\ object_bool (this_delegate m') = true
        /\ object_eq (this_delegate m') (this_delegate m) = true
        /\ object_eq (this_delegate m) (this_delegate m') = true).
Proof.
  intros Hfn Htext. split; [|split; [|split]].
  - intros args. unfold object_invoke. now rewrite Hfn, Htext.
  - intros f Hf args m0. exact (Hf args m0).
  - intros f Hf args m0. unfold member_code. apply Hf.
  - intros Hkeep l.
    destruct (object_invoke_all_keeps_fn text a code l Htext Hkeep m Hfn)
      as (rs & m' & E & Hfn').
    exists rs, m'. unfold object_bool, object_eq. rewrite Hfn', Hfn.
    rewrite fn_addr_eqb_refl. auto.
Qed.

End ObjectFacts.

(** C10, as the claim has it, fails: the delegate is connected to [once],
    which resets the delegate it is called through.  The delegate is true
    before the call; the call returns, and leaves the delegate false and
    not equal to the delegate before the call; the next call fails the
    assertion. *)
Lemma listener_resets_its_delegate :
  object_bool (this_delegate Listener.connected_to_once) = true
  /\ exists m',
       object_invoke Listener.text 1 Listener.connected_to_once = Some (1, m')
       /\ object_fn (this_delegate m') = None
       /\ object_bool (this_delegate m') = false
       /\ object_eq (this_delegate m') (this_delegate Listener.connected_to_once) = false
       /\ object_invoke Listener.text 1 m' = None.
Proof.
  split; [reflexivity|]. eexists. repeat split; reflexivity.
Qed.

Lemma object_invoke_keeps_fn_witness :
  exists m',
    object_invoke_all Listener.text [5; 5] Listener.connected_to_counter
    = Some ([15; 20], m')
    /\ globals m' = [(Program.counter_address, 20)]
    /\ object_bool (this_delegate m') = true
    /\ object_eq (this_delegate m') (this_delegate Listener.connected_to_counter) = true.
Proof.
  destruct (object_invoke_keeps_fn Z Z Program.memory 8 Listener.text
              (lambda_candidate "counter::increment" "counter*") _
              Listener.connected_to_counter eq_refl eq_refl)
    as (_ & _ & Hmember & Hrun).
  destruct (Hrun (Hmember _ (fun this => keeps_fn_on_globals Z Z Program.memory _)) [5; 5])
    as (rs & m' & E & _ & Hbool & Heq & _).
  exists m'. split; [|split; [|split; [exact Hbool|exact Heq]]].
  - rewrite E. vm_compute in E. injection E as <- _. reflexivity.
  - vm_compute in E. injection E as _ <-. reflexivity.
Defined.

(** C6, as the claim has it, fails: [add_long] curried on the [int] 1
    and curried on the [unsigned] 1 are two instantiations of [connect]
    with a lambda each, and the two delegates are not equal. *)
Lemma same_function_other_type_not_equal :
  candidate_name Program.add_long_int = candidate_name Program.add_long_unsigned
  /\ exists d1 d2 : delegate Z Z Program.memory,
       connect_candidate 8 Program.add_long_int 1 (delegate_default 8) = Some d1
       /\ connect_candidate 8 Program.add_long_unsigned 1 (delegate_default 8) = Some d2
       /\ operator_eq d1 d2 = false
       /\ operator_neq d1 d2 = true.
Proof.
  split; [reflexivity|]. eexists. eexists. repeat split; reflexivity.
Qed.

(** A function object of a class that is not trivially copyable, which
    [connect] accepts: the object in the buffer is the one its constructor
    makes, and the call is made on that one. *)
Lemma connect_invokable_runs_constructor :
  ty_is_trivially_copyable (invokable_type Program.bump) = false
  /\ exists d',
       connect_invokable 8 Program.bump 3 (delegate_default 8) = Some d'
       /\ reinterpret (invokable_type Program.bump) (storage d') = 4
       /\ option_map (fun x => fst (fst x)) (invoke d' 7 Program.initial_memory) = Some 28.
Proof.
  split; [reflexivity|]. eexists. repeat split; reflexivity.
Qed.

(** ** Further properties of the class *)

Lemma le_split_zero (n : nat) : le_split n 0 = repeat Byte.x00 n.
Proof.
  induction n as [|n IH]; [reflexivity|].
  change (le_split (S n) 0) with (byte.of_Z 0 :: le_split n (Z.shiftr 0 8)).
  change (Z.shiftr 0 8) with 0. now rewrite IH.
Qed.

Lemma skipn_repeat {A : Type} (x : A) (k n : nat) :
  skipn k (repeat x n) = repeat x (n - k).
Proof.
  revert k. induction n as [|n IH]; intros [|k]; cbn; auto.
Qed.

Lemma fn_addr_eqb_sym (a b : fn_addr) : fn_addr_eqb a b = fn_addr_eqb b a.
Proof.
  destruct (fn_addr_eqb a b) eqn:E.
  - apply fn_addr_eqb_eq in E as ->. symmetry. apply fn_addr_eqb_refl.
  - destruct (fn_addr_eqb b a) eqn:E'; [|reflexivity].
    apply fn_addr_eqb_eq in E' as ->. now rewrite fn_addr_eqb_refl in E.
Qed.

Section DelegateLaws.

Variables Ret Args World : Type.
Variable ptr_size : nat.

Local Abbreviation delegate := (delegate Ret Args World).

(** X1. In every state a delegate can be in, the buffer has exactly the
    size of a pointer: no [connect] that is accepted and no call writes
    past it.  And what [instance()] returns is always an address of the
    machine. *)
Theorem storage_always_pointer_sized (d : delegate) :
  reachable ptr_size d ->
  List.length (storage d) = ptr_size
  /\ 0 <= instance ptr_size d < 2 ^ (Z.of_nat ptr_size * 8).
Proof.
  intros H. apply reachable_storage_size in H as [H _]. split; [exact H|].
  unfold instance, reinterpret. cbn [void_ptr pointer_to ty_from_bytes ty_sizeof].
  pose proof (le_combine_bound (firstn ptr_size (storage d))) as B.
  rewrite length_firstn, H, Nat.min_id in B. now rewrite Z.mul_comm.
Qed.

(** X2. A call fails the assertion exactly on a delegate that is false;
    so it does on a default constructed delegate and after [reset],
    whatever had been connected before and whatever the arguments. *)
Theorem invoke_unbound (d : delegate) (args : Args) (w : World) :
  (invoke d args w = None <-> operator_bool d = false)
  /\ invoke (reset ptr_size d) args w = None
  /\ invoke (delegate_default ptr_size : delegate) args w = None.
Proof.
  split; [|split; reflexivity].
  unfold invoke, operator_bool. destruct (fn d) as [f|].
  - destruct (fp_code f (storage d) args w) as [[r st'] w']. split; discriminate.
  - tauto.
Qed.

(** X3. [operator==] is an equivalence on delegates, and [operator!=] is
    irreflexive and symmetric. *)
Theorem operator_eq_equivalence (d1 d2 d3 : delegate) :
  operator_eq d1 d1 = true
  /\ operator_eq d1 d2 = operator_eq d2 d1
  /\ (operator_eq d1 d2 = true -> operator_eq d2 d3 = true -> operator_eq d1 d3 = true)
  /\ operator_neq d1 d1 = false
  /\ operator_neq d1 d2 = operator_neq d2 d1.
Proof.
  assert (Hrefl : operator_eq d1 d1 = true).
  { apply operator_eq_iff. reflexivity. }
  assert (Hsym : operator_eq d1 d2 = operator_eq d2 d1).
  { unfold operator_eq. destruct (fn d1), (fn d2); auto using fn_addr_eqb_sym. }
  split; [exact Hrefl|]. split; [exact Hsym|]. split; [|split].
  - rewrite !operator_eq_iff. congruence.
  - unfold operator_neq. now rewrite Hrefl.
  - unfold operator_neq. now rewrite Hsym.
Qed.

(** X4. Delegates that are equal are both true or both false; two
    delegates that are false are equal, so that a delegate that was reset
    is equal to a default constructed one. *)
Theorem operator_eq_truthiness (d1 d2 : delegate) :
  (operator_eq d1 d2 = true -> operator_bool d1 = operator_bool d2)
  /\ (operator_bool d1 = false -> operator_bool d2 = false -> operator_eq d1 d2 = true)
  /\ operator_eq (reset ptr_size d1) (delegate_default ptr_size) = true.
Proof.
  unfold operator_eq, operator_bool. split; [|split; [|reflexivity]].
  - destruct (fn d1), (fn d2); congruence.
  - destruct (fn d1), (fn d2); congruence.
Qed.

(** X5. After [connect], equality is equality of the template arguments:
    of the names of the free functions; of the candidates and of the types
    of their values or instances; of the types of the function objects,
    whatever the objects hold.  Delegates connected by different overloads
    are never equal. *)
Theorem operator_eq_after_connect (d1 d2 : delegate) :
  (forall Function1 Function2 d1' d2',
      connect_function ptr_size Function1 d1 = Some d1' ->
      connect_function ptr_size Function2 d2 = Some d2' ->
      (operator_eq d1' d2' = true <-> function_name Function1 = function_name Function2))
  /\ (forall T1 T2 (Candidate1 : candidate_t Ret Args World T1)
             (Candidate2 : candidate_t Ret Args World T2) v1 v2 d1' d2',
        connect_candidate ptr_size Candidate1 v1 d1 = Some d1' ->
        connect_candidate ptr_size Candidate2 v2 d2 = Some d2' ->
        (operator_eq d1' d2' = true <->
         candidate_name Candidate1 = candidate_name Candidate2 /\ ty_name T1 = ty_name T2))
  /\ (forall Invokable1 Invokable2 o1 o2 d1' d2',
        connect_invokable ptr_size Invokable1 o1 d1 = Some d1' ->
        connect_invokable ptr_size Invokable2 o2 d2 = Some d2' ->
        (operator_eq d1' d2' = true <->
         ty_name (invokable_type Invokable1) = ty_name (invokable_type Invokable2)))
  /\ (forall Function T (Candidate : candidate_t Ret Args World T) v d1' d2',
        connect_function ptr_size Function d1 = Some d1' ->
        connect_candidate ptr_size Candidate v d2 = Some d2' ->
        operator_eq d1' d2' = false)
  /\ (forall Function Invokable o d1' d2',
        connect_function ptr_size Function d1 = Some d1' ->
        connect_invokable ptr_size Invokable o d2 = Some d2' ->
        operator_eq d1' d2' = false)
  /\ (forall T (Candidate : candidate_t Ret Args World T) v Invokable o d1' d2',
        connect_candidate ptr_size Candidate v d1 = Some d1' ->
        connect_invokable ptr_size Invokable o d2 = Some d2' ->
        operator_eq d1' d2' = false).
Proof.
  repeat split.
  - intros E. apply operator_eq_iff in E.
    apply connect_function_fn in H as (_ & f1 & F1 & A1).
    apply connect_function_fn in H0 as (_ & f2 & F2 & A2).
    rewrite F1, F2 in E. cbn in E. congruence.
  - intros E. apply operator_eq_iff.
    apply connect_function_fn in H as (_ & f1 & F1 & A1).
    apply connect_function_fn in H0 as (_ & f2 & F2 & A2).
    rewrite F1, F2. cbn. congruence.
  - apply operator_eq_iff in H1.
    apply connect_candidate_fn in H as (_ & _ & c1 & _ & F1).
    apply connect_candidate_fn in H0 as (_ & _ & c2 & _ & F2).
    rewrite F1, F2 in H1. cbn in H1. congruence.
  - apply operator_eq_iff in H1.
    apply connect_candidate_fn in H as (_ & _ & c1 & _ & F1).
    apply connect_candidate_fn in H0 as (_ & _ & c2 & _ & F2).
    rewrite F1, F2 in H1. cbn in H1. congruence.
  - intros [E1 E2]. apply operator_eq_iff.
    apply connect_candidate_fn in H as (_ & _ & c1 & _ & F1).
    apply connect_candidate_fn in H0 as (_ & _ & c2 & _ & F2).
    rewrite F1, F2. cbn. congruence.
  - intros E. apply operator_eq_iff in E.
    apply connect_invokable_fn in H as (_ & _ & c1 & _ & F1).
    apply connect_invokable_fn in H0 as (_ & _ & c2 & _ & F2).
    rewrite F1, F2 in E. cbn in E. congruence.
  - intros E. apply operator_eq_iff.
    apply connect_invokable_fn in H as (_ & _ & c1 & _ & F1).
    apply connect_invokable_fn in H0 as (_ & _ & c2 & _ & F2).
    rewrite F1, F2. cbn. congruence.
  - intros Function T Candidate v d1' d2' H1 H2. apply operator_eq_false_iff.
    apply connect_function_fn in H1 as (_ & f1 & F1 & A1).
    apply connect_candidate_fn in H2 as (_ & _ & c2 & _ & F2).
    rewrite F1, F2. cbn. rewrite A1. discriminate.
  - intros Function Invokable o d1' d2' H1 H2. apply operator_eq_false_iff.
    apply connect_function_fn in H1 as (_ & f1 & F1 & A1).
    apply connect_invokable_fn in H2 as (_ & _ & c2 & _ & F2).
    rewrite F1, F2. cbn. rewrite A1. discriminate.
  - intros T Candidate v Invokable o d1' d2' H1 H2. apply operator_eq_false_iff.
    apply connect_candidate_fn in H1 as (_ & _ & c1 & _ & F1).
    apply connect_invokable_fn in H2 as (_ & _ & c2 & _ & F2).
    rewrite F1, F2. cbn. discriminate.
Qed.

(** *** Runs of calls *)

(** The trampoline of a value, over runs: the value in the buffer is the
    object that the calls work on. *)
Lemma invoke_all_thunk (T : cxx_type)
    (call : ty_val T -> Args -> World -> Ret * ty_val T * World)
    (valid : ty_val T -> Prop) (a : fn_addr) (st : storage_type) :
  (forall v, valid v -> repr_ok T v) ->
  (forall v args w, valid v -> valid (snd (fst (call v args w)))) ->
  forall (l : list Args) (v : ty_val T) (w : World),
    valid v ->
    invoke_all {| storage := placement_new (ty_to_bytes T v) st;
                  fn := Some {| fp_addr := a; fp_code := candidate_thunk T call |} |} l w
    = let '(rs, v', w') := direct_calls_on call v l w in
      Some (rs, {| storage := placement_new (ty_to_bytes T v') st;
                   fn := Some {| fp_addr := a; fp_code := candidate_thunk T call |} |}, w').
Proof.
  intros Hrepr Hkeep. induction l as [|args l IH]; intros v w Hv; [reflexivity|].
  cbn [invoke_all direct_calls_on]. unfold invoke. cbn [fn storage fp_code].
  rewrite (candidate_thunk_bound Ret Args World T call v st args w (Hrepr v Hv)).
  pose proof (Hkeep v args w Hv) as Hv'.
  destruct (call v args w) as [[r v1] w1]. cbn [fst snd] in Hv'.
  rewrite (IH v1 w1 Hv').
  now destruct (direct_calls_on call v1 l w1) as [[rs v2] w2].
Qed.

(** X8. A function curried on a value that it takes by reference: a run
    of calls through the delegate returns what the same run of direct
    calls returns on a copy of the value, each call on the value the one
    before left, and leaves that value in the buffer and the bytes after
    it untouched. *)
Theorem invoke_all_curried (T : cxx_type) (Candidate : candidate_t Ret Args World T)
    (g : ty_val T -> Args -> World -> Ret * ty_val T * World)
    (valid : ty_val T -> Prop) (v : ty_val T) (d d' : delegate)
    (l : list Args) (w : World) :
  candidate_call Candidate = Some g ->
  connect_candidate ptr_size Candidate v d = Some d' ->
  (forall u, valid u -> repr_ok T u) ->
  (forall u args w0, valid u -> valid (snd (fst (g u args w0)))) ->
  valid v ->
  invoke_all d' l w
  = let '(rs, v', w') := direct_calls_on g v l w in
    Some (rs, {| storage := placement_new (ty_to_bytes T v') (storage d); fn := fn d' |}, w').
Proof.
  intros Hg Hd' Hrepr Hkeep Hv.
  apply connect_candidate_fn in Hd' as (_ & S & call & Hcall & F).
  assert (call = g) as -> by congruence.
  destruct d' as [st' f']. cbn [storage fn] in *. subst st' f'.
  now apply invoke_all_thunk with (valid := valid).
Qed.

(** X9. A function object with a call operator that changes it: a run of
    calls through the delegate returns what the same run of direct calls
    returns on the object that [connect] constructs in the buffer, a copy
    of [o] when the class is trivially copyable; each call works on the
    object the one before left, and the run leaves that object in the
    buffer and the bytes after it untouched. *)
Theorem invoke_all_invokable (Invokable : invokable_t Ret Args World)
    (call : ty_val (invokable_type Invokable) -> Args -> World ->
            Ret * ty_val (invokable_type Invokable) * World)
    (valid : ty_val (invokable_type Invokable) -> Prop)
    (o : ty_val (invokable_type Invokable)) (d d' : delegate)
    (l : list Args) (w : World) :
  invokable_call Invokable = Some call ->
  connect_invokable ptr_size Invokable o d = Some d' ->
  (forall u, valid u -> repr_ok (invokable_type Invokable) u) ->
  (forall u args w0, valid u -> valid (snd (fst (call u args w0)))) ->
  valid (move_construct Invokable o) ->
  invoke_all d' l w
  = (let '(rs, o', w') := direct_calls_on call (move_construct Invokable o) l w in
     Some (rs, {| storage := placement_new (ty_to_bytes (invokable_type Invokable) o') (storage d);
                  fn := fn d' |}, w'))
  /\ (ty_is_trivially_copyable (invokable_type Invokable) = true ->
      move_construct Invokable o = o).
Proof.
  intros Hc Hd' Hrepr Hkeep Hv. split; [|apply move_construct_trivial].
  apply connect_invokable_fn in Hd' as (_ & S & call' & Hcall & F).
  assert (call' = call) as -> by congruence.
  destruct d' as [st' f']. cbn [storage fn] in *. subst st' f'.
  now apply invoke_all_thunk with (valid := valid).
Qed.

Lemma direct_calls_on_member (f : Z -> Args -> World -> Ret * World) (i : Z) (l : list Args) :
  forall w,
    direct_calls_on (invoke_member f) i l w
    = (fst (direct_calls (f i) l w), i, snd (direct_calls (f i) l w)).
Proof.
  induction l as [|args l IH]; intros w; [reflexivity|].
  cbn [direct_calls_on direct_calls]. unfold invoke_member at 1.
  destruct (f i args w) as [r w1]. rewrite IH.
  now destruct (direct_calls (f i) l w1).
Qed.




Lemma delegate_default_storage :
  storage (delegate_default ptr_size : delegate) = repeat Byte.x00 ptr_size.
Proof.
  unfold delegate_default. cbn [storage void_ptr pointer_to ty_to_bytes].
  unfold nullptr. rewrite le_split_zero.
  apply placement_new_whole. reflexivity.
Qed.

Lemma constructed_storage (bs : list byte) :
  (List.length bs <= ptr_size)%nat ->
  placement_new bs (storage (delegate_default ptr_size : delegate))
  = bs ++ repeat Byte.x00 (ptr_size - List.length bs)
  /\ reinterpret (void_ptr ptr_size)
       (placement_new bs (storage (delegate_default ptr_size : delegate)))
     = le_combine bs.
Proof.
  intros H. rewrite delegate_default_storage. unfold placement_new.
  rewrite skipn_repeat. split; [reflexivity|].
  unfold reinterpret. cbn [void_ptr pointer_to ty_from_bytes ty_sizeof].
  rewrite firstn_all2 by (rewrite length_app, repeat_length; lia).
  apply le_combine_app_0.
Qed.

(** X14. The constructors that connect start from a buffer of zero
    bytes.  Made from a value or an instance, the delegate holds its bytes
    followed by zero bytes, and its [instance()] is those bytes read as an
    unsigned number; made from a free function, it holds zero bytes only.
    Made from a function object, it holds the bytes of the object that
    two constructions in a row make of it, the function object itself
    when the class is trivially copyable, followed by zero bytes. *)
Theorem constructed_delegate_storage :
  (forall Function (d : delegate),
      delegate_of_function ptr_size Function = Some d ->
      storage d = repeat Byte.x00 ptr_size)
  /\ (forall T (Candidate : candidate_t Ret Args World T) v (d : delegate),
        delegate_of_candidate ptr_size Candidate v = Some d ->
        storage d = ty_to_bytes T v ++ repeat Byte.x00 (ptr_size - ty_sizeof T)
        /\ instance ptr_size d = le_combine (ty_to_bytes T v))
  /\ (forall Invokable o (d : delegate),
        delegate_from_invokable ptr_size Invokable o = Some d ->
        storage d = ty_to_bytes (invokable_type Invokable)
                      (move_construct Invokable (move_construct Invokable o))
                    ++ repeat Byte.x00 (ptr_size - ty_sizeof (invokable_type Invokable)))
  /\ (forall Invokable o (d : delegate),
        ty_is_trivially_copyable (invokable_type Invokable) = true ->
        delegate_from_invokable ptr_size Invokable o = Some d ->
        storage d = ty_to_bytes (invokable_type Invokable) o
                    ++ repeat Byte.x00 (ptr_size - ty_sizeof (invokable_type Invokable))
        /\ instance ptr_size d = le_combine (ty_to_bytes (invokable_type Invokable) o)).
Proof.
  assert (Hobject : forall Invokable o (d : delegate),
             delegate_from_invokable ptr_size Invokable o = Some d ->
             storage d = ty_to_bytes (invokable_type Invokable)
                           (move_construct Invokable (move_construct Invokable o))
                         ++ repeat Byte.x00 (ptr_size - ty_sizeof (invokable_type Invokable))
             /\ instance ptr_size d
                = le_combine (ty_to_bytes (invokable_type Invokable)
                                (move_construct Invokable (move_construct Invokable o)))).
  { intros Invokable o d H.
    apply connect_invokable_fn in H as (Hok & S & _).
    apply connect_invokable_asserts_true in Hok as (Hsize & _).
    unfold instance. rewrite S.
    rewrite <- (ty_to_bytes_length (invokable_type Invokable)
                  (move_construct Invokable (move_construct Invokable o))).
    apply constructed_storage. rewrite ty_to_bytes_length. lia. }
  split; [|split; [|split]].
  - intros Function d H. apply connect_function_fn in H as (-> & _).
    cbn [void_ptr pointer_to ty_to_bytes]. unfold nullptr. rewrite le_split_zero.
    apply placement_new_whole. now rewrite delegate_default_storage.
  - intros T Candidate v d H.
    apply connect_candidate_fn in H as (Hok & S & _).
    apply connect_candidate_asserts_true in Hok as (Hsize & _).
    unfold instance. rewrite S, <- (ty_to_bytes_length T v).
    apply constructed_storage. now rewrite ty_to_bytes_length.
  - intros Invokable o d H. now apply Hobject.
  - intros Invokable o d Hcopy H. apply Hobject in H.
    now rewrite !(move_construct_trivial Ret Args World Invokable _ Hcopy) in H.
Qed.

End DelegateLaws.

(** ** The further properties at work on the program *)

Lemma storage_always_pointer_sized_witness :
  List.length (storage Program.rebound_to_add_5) = 8%nat
  /\ 0 <= instance 8 Program.rebound_to_add_5 < 2 ^ (Z.of_nat 8 * 8).
Proof.
  apply (storage_always_pointer_sized Z Z Program.memory 8 Program.rebound_to_add_5).
  refine (reach_connect_candidate 8 Program.int Program.add 5 Program.bound_to_counter _ _ eq_refl).
  exact (reach_connect_candidate 8 _ (member_candidate 8 Program.counter_increment)
           Program.counter_address _ _ (reach_default 8) eq_refl).
Defined.

Lemma invoke_unbound_witness :
  operator_bool (reset 8 Program.bound_to_counter) = false
  /\ invoke (reset 8 Program.bound_to_counter) 5 Program.initial_memory = None.
Proof.
  destruct (invoke_unbound Z Z Program.memory 8 (reset 8 Program.bound_to_counter)
              5 Program.initial_memory) as (Hiff & _).
  destruct (invoke_unbound Z Z Program.memory 8 Program.bound_to_counter
              5 Program.initial_memory) as (_ & Hreset & _).
  split; [exact (proj1 Hiff Hreset)|exact Hreset].
Defined.

Lemma operator_eq_equivalence_witness :
  operator_eq Program.rebound_to_add_5 Program.bound_to_add_5 = true
  /\ operator_eq Program.bound_to_add_5 Program.rebound_to_add_5 = true
  /\ operator_neq Program.bound_to_add_5 Program.bound_to_counter = true
  /\ operator_neq Program.bound_to_counter Program.bound_to_add_5 = true.
Proof.
  destruct (operator_eq_equivalence Z Z Program.memory
              Program.rebound_to_add_5 Program.bound_to_add_5 Program.rebound_to_add_5)
    as (_ & Hsym & Htrans & _).
  destruct (operator_eq_equivalence Z Z Program.memory
              Program.bound_to_add_5 Program.bound_to_counter Program.bound_to_counter)
    as (_ & _ & _ & _ & Hneq).
  split; [reflexivity|]. split; [rewrite <- Hsym; reflexivity|].
  split; [reflexivity|]. rewrite <- Hneq. reflexivity.
Defined.

Lemma operator_eq_truthiness_witness :
  operator_bool Program.rebound_to_add_5 = operator_bool Program.bound_to_add_5
  /\ operator_eq (reset 8 Program.bound_to_counter) (reset 8 Program.bound_to_add_5) = true.
Proof.
  destruct (operator_eq_truthiness Z Z Program.memory 8
              Program.rebound_to_add_5 Program.bound_to_add_5) as (Hsame & _).
  destruct (operator_eq_truthiness Z Z Program.memory 8
              (reset 8 Program.bound_to_counter) (reset 8 Program.bound_to_add_5))
    as (_ & Hempty & _).
  split; [exact (Hsame eq_refl)|exact (Hempty eq_refl eq_refl)].
Defined.

Lemma operator_eq_after_connect_witness :
  exists d1 d2 d3 d4 d5 : delegate Z Z Program.memory,
    connect_invokable 8 Program.tally 1 (delegate_default 8) = Some d1
    /\ connect_invokable 8 Program.tally 200 Program.bound_to_counter = Some d2
    /\ connect_invokable 8 Program.scale 1 (delegate_default 8) = Some d3
    /\ connect_candidate 8 Program.add_long_int 1 (delegate_default 8) = Some d4
    /\ connect_candidate 8 Program.add_long_unsigned 1 (delegate_default 8) = Some d5
    /\ operator_eq d1 d2 = true
    /\ operator_eq d1 d3 = false
    /\ operator_eq d4 d5 = false
    /\ operator_eq d4 d1 = false.
Proof.
  destruct (operator_eq_after_connect Z Z Program.memory 8
              (delegate_default 8) Program.bound_to_counter)
    as (_ & _ & Hobject & _).
  destruct (operator_eq_after_connect Z Z Program.memory 8
              (delegate_default 8) (delegate_default 8))
    as (_ & Hvalue & Hobject' & _ & _ & Hkinds).
  eexists. eexists. eexists. eexists. eexists.
  split; [reflexivity|]. split; [reflexivity|]. split; [reflexivity|].
  split; [reflexivity|]. split; [reflexivity|].
  split; [|split; [|split]].
  - exact (proj2 (Hobject Program.tally Program.tally 1 200 _ _ eq_refl eq_refl) eq_refl).
  - pose proof (Hobject' Program.tally Program.scale 1 1 _ _ eq_refl eq_refl) as H.
    destruct (operator_eq _ _); [|reflexivity].
    apply proj1 in H. specialize (H eq_refl). discriminate H.
  - pose proof (Hvalue Program.int Program.unsigned Program.add_long_int
                  Program.add_long_unsigned 1 1 _ _ eq_refl eq_refl) as H.
    destruct (operator_eq _ _); [|reflexivity].
    apply proj1 in H. specialize (H eq_refl). destruct H as [_ H]. discriminate H.
  - exact (Hkinds Program.int Program.add_long_int 1 Program.tally 1 _ _ eq_refl eq_refl).
Defined.

Lemma invoke_all_curried_witness :
  exists d',
    connect_candidate 8 Program.nth_call 0 Program.bound_to_counter = Some d'
    /\ invoke_all d' [10; 10; 10] Program.initial_memory
       = Some ([10; 20; 30],
               {| storage := placement_new (ty_to_bytes Program.unsigned 3)
                                           (storage Program.bound_to_counter);
                  fn := fn d' |},
               Program.initial_memory).
Proof.
  eexists. split; [reflexivity|].
  refine (invoke_all_curried Z Z Program.memory 8 Program.unsigned Program.nth_call _
            (fun u => 0 <= u < 2 ^ 32) 0 Program.bound_to_counter _
            [10; 10; 10] Program.initial_memory eq_refl eq_refl _ _ _).
  - intros u Hu. unfold repr_ok. cbn [Program.unsigned ty_to_bytes ty_from_bytes].
    rewrite le_combine_split. now apply Z.mod_small.
  - intros u args w0 _. cbn [fst snd]. apply Z.mod_pos_bound. reflexivity.
  - split; [discriminate|reflexivity].
Defined.

Lemma invoke_all_invokable_witness :
  exists d',
    connect_invokable 8 Program.tally 254 (delegate_default 8) = Some d'
    /\ invoke_all d' [10; 10; 10] Program.initial_memory
       = Some ([2550; 0; 10],
               {| storage := placement_new (ty_to_bytes (invokable_type Program.tally) 1)
                                           (storage (delegate_default 8
                                                     : delegate Z Z Program.memory));
                  fn := fn d' |},
               Program.initial_memory).
Proof.
  eexists. split; [reflexivity|].
  refine (proj1 (invoke_all_invokable Z Z Program.memory 8 Program.tally _
                   (fun u => 0 <= u < 2 ^ 8) 254 (delegate_default 8) _
                   [10; 10; 10] Program.initial_memory eq_refl eq_refl _ _ _)).
  - intros u Hu. unfold repr_ok. cbn [Program.tally invokable_type ty_to_bytes ty_from_bytes].
    rewrite le_combine_split. now apply Z.mod_small.
  - intros u args w0 _. cbn [fst snd]. apply Z.mod_pos_bound. reflexivity.
  - split; [discriminate|reflexivity].
Defined.




Lemma constructed_delegate_storage_witness :
  storage Program.bound_to_add_5
  = [Byte.x05; Byte.x00; Byte.x00; Byte.x00] ++ repeat Byte.x00 4
  /\ instance 8 Program.bound_to_add_5 = 5
  /\ (exists d : delegate Z Z Program.memory,
        delegate_from_invokable 8 Program.scale 3 = Some d
        /\ storage d = [Byte.x03] ++ repeat Byte.x00 7
        /\ instance 8 d = 3)
  /\ (exists d : delegate Z Z Program.memory,
        delegate_from_invokable 8 Program.bump 3 = Some d
        /\ storage d = [Byte.x05] ++ repeat Byte.x00 7).
Proof.
  destruct (constructed_delegate_storage Z Z Program.memory 8)
    as (_ & Hvalue & Hobject & Htrivial).
  split; [|split; [|split]].
  - exact (proj1 (Hvalue Program.int Program.add 5 Program.bound_to_add_5 eq_refl)).
  - exact (proj2 (Hvalue Program.int Program.add 5 Program.bound_to_add_5 eq_refl)).
  - eexists. split; [reflexivity|].
    exact (Htrivial Program.scale 3 _ eq_refl eq_refl).
  - eexists. split; [reflexivity|].
    exact (Hobject Program.bump 3 _ eq_refl).
Defined.
